(** * Track resolution of the Spotify song analyzer (music.py)

    A shallow embedding of [music.py]: the tiered search
    [search_track_with_preview], the record builder [create_track_info],
    the link generator [get_alternative_preview_url], the feature fetch
    [get_audio_features] and the entry point [get_track_preview].

    Conventions of the embedding.
    - A Python [str] is a [string]; [str.lower] and [urllib.parse.quote]
      are written out for ASCII text (other bytes are left alone by
      [lower] and percent-encoded by [quote]).
    - A Python number is an exact rational [Q] ([int] and [float] alike).
    - A Python dict is a [gmap string pyval].
    - The spotipy client is an oracle (a record of functions) whose calls
      either return or raise; every call is appended to a call log, so the
      order and the arguments of the remote calls can be stated.
    - [try: ... except Exception] is [try_except]. Calls to [logger] have
      no effect on the result and are left out. *)

From Stdlib Require Import Ascii String QArith Lqa.
From stdpp Require Import gmap strings list fin_maps sorting pretty.

#[local] Set Warnings "-register-all".
#[local] Open Scope string_scope.
#[local] Open Scope list_scope.

(** ** Python strings *)

Module PyStr.

(** The character [chr(34)], written this way because it delimits Rocq
    string literals. *)
Definition dquote : string := String "034"%char EmptyString.

Definition is_upper (c : ascii) : bool :=
  let n := nat_of_ascii c in (65 <=? n)%nat && (n <=? 90)%nat.

Definition lower_char (c : ascii) : ascii :=
  if is_upper c then ascii_of_nat (nat_of_ascii c + 32) else c.

(** [s.lower()] *)
Fixpoint lower (s : string) : string :=
  match s with
  | EmptyString => EmptyString
  | String c s' => String (lower_char c) (lower s')
  end.

(** [needle in hay] *)
Fixpoint str_in (needle hay : string) : bool :=
  String.prefix needle hay
  || match hay with
     | EmptyString => false
     | String _ hay' => str_in needle hay'
     end.

(** The proposition behind [in]: [hay] is [pre + needle + post]. *)
Definition contains (hay needle : string) : Prop :=
  exists pre post, hay = pre +:+ needle +:+ post.

(** [s * n] for a string and a count. *)
Fixpoint repeat_str (s : string) (n : nat) : string :=
  match n with
  | O => EmptyString
  | S n' => s +:+ repeat_str s n'
  end.

Definition hex_digit (n : nat) : ascii :=
  if (n <? 10)%nat then ascii_of_nat (48 + n) else ascii_of_nat (55 + n).

(** The characters [quote] never encodes: letters, digits, [_.-~] and
    the default [safe='/']. *)
Definition is_safe (c : ascii) : bool :=
  let n := nat_of_ascii c in
  ((65 <=? n) && (n <=? 90) || (97 <=? n) && (n <=? 122)
   || (48 <=? n) && (n <=? 57)
   || (n =? 95) || (n =? 46) || (n =? 45) || (n =? 126) || (n =? 47))%nat.

Definition quote_char (c : ascii) : string :=
  if is_safe c then String c EmptyString
  else
    let n := nat_of_ascii c in
    String "%"%char
      (String (hex_digit (n / 16)) (String (hex_digit (n mod 16)) EmptyString)).

(** [urllib.parse.quote(s)] *)
Fixpoint quote (s : string) : string :=
  match s with
  | EmptyString => EmptyString
  | String c s' => quote_char c +:+ quote s'
  end.

End PyStr.
Import PyStr.

(** ** Python values *)

Inductive pyval : Type :=
  | VNone
  | VNum (q : Q)
  | VStr (s : string)
  | VDict (d : gmap string pyval).

(** Truth value of a dict: non-empty. *)
Definition dict_truthy (d : gmap string pyval) : bool :=
  negb (bool_decide (size d = 0%nat)).

(** [bool(v)] *)
Definition truthy (v : pyval) : bool :=
  match v with
  | VNone => false
  | VNum q => negb (Qeq_bool q 0)
  | VStr s => negb (bool_decide (s = EmptyString))
  | VDict d => dict_truthy d
  end.

(** A JSON field that is a string or null. *)
Definition of_opt_str (o : option string) : pyval :=
  match o with
  | Some s => VStr s
  | None => VNone
  end.

(** ** Exceptions, results and the call log *)

Inductive exn : Type := Exception (msg : string).

(** [str(e)] *)
Definition str_exn (e : exn) : string :=
  match e with Exception msg => msg end.

Inductive result (A : Type) : Type :=
  | Ok (a : A)
  | Raise (e : exn).
Arguments Ok {A} a.
Arguments Raise {A} e.

#[global] Instance result_ret : MRet result := fun _ a => Ok a.
#[global] Instance result_bind : MBind result := fun _ _ f m =>
  match m with
  | Ok a => f a
  | Raise e => Raise e
  end.

(** One remote call of the client, with its arguments. *)
Inductive Call : Type :=
  | SearchCall (q type : string) (limit : Z) (market : string)
  | AudioFeaturesCall (track_id : pyval).

(** A computation that may call the client: it extends the log of calls
    and returns or raises. *)
Definition Eff (A : Type) : Type := list Call -> result A * list Call.

#[global] Instance eff_ret : MRet Eff := fun _ a log => (Ok a, log).
#[global] Instance eff_bind : MBind Eff := fun _ _ f m log =>
  match m log with
  | (Ok a, log') => f a log'
  | (Raise e, log') => (Raise e, log')
  end.

(** A pure step that returns or raises. *)
Definition lift {A} (r : result A) : Eff A := fun log => (r, log).

(** [try: body except Exception as e: handler(e)] *)
Definition try_except {A} (body : Eff A) (handler : exn -> Eff A) : Eff A :=
  fun log =>
    match body log with
    | (Ok a, log') => (Ok a, log')
    | (Raise e, log') => handler e log'
    end.

(** ** The catalog service *)

Record Artist := { ar_name : string }.
Record Image := { im_url : string }.
Record Album := {
  al_name : string;
  al_images : list Image;
  al_release_date : string
}.

(** One item of [results['tracks']['items']]. *)
Record RawTrack := {
  tr_id : string;
  tr_name : string;
  tr_artists : list Artist;
  tr_album : Album;
  tr_preview_url : option string;
  tr_popularity : Z;
  tr_duration_ms : Z;
  tr_external_urls_spotify : string;
  tr_uri : string
}.

(** The client [sp]: [sp.search(q, type, limit, market)] answers with the
    items of the result page; [sp.audio_features(id)] answers with [None]
    or a list whose entries are [None] or a dict. *)
Record Spotify := {
  sp_search : string -> string -> Z -> string -> result (list RawTrack);
  sp_audio_features :
    pyval -> result (option (list (option (gmap string pyval))))
}.

(** What building the client does: it yields a client or raises. *)
Record Env := { connect : result Spotify }.

Definition call_search (sp : Spotify) (q type : string) (limit : Z)
    (market : string) : Eff (list RawTrack) :=
  fun log => (sp_search sp q type limit market,
              log ++ [SearchCall q type limit market]).

Definition call_audio_features (sp : Spotify) (track_id : pyval)
    : Eff (option (list (option (gmap string pyval)))) :=
  fun log => (sp_audio_features sp track_id, log ++ [AudioFeaturesCall track_id]).

(** ** Small pieces of Python *)

(** Truth value of a list: non-empty. *)
Definition list_truthy {A} (l : list A) : bool :=
  match l with
  | [] => false
  | _ :: _ => true
  end.

(** [l[0]] *)
Definition index0 {A} (l : list A) : result A :=
  match l with
  | x :: _ => Ok x
  | [] => Raise (Exception "list index out of range")
  end.

(** [d[k]] *)
Definition getitem (d : gmap string pyval) (k : string) : result pyval :=
  match d !! k with
  | Some v => Ok v
  | None => Raise (Exception ("'" +:+ k +:+ "'"))
  end.

(** [d.get(k, dflt)] *)
Definition dict_get (d : gmap string pyval) (k : string) (dflt : pyval) : pyval :=
  default dflt (d !! k).

(** [v * n] for a literal count [n]: numbers multiply, strings repeat,
    [None] and dicts raise [TypeError]. *)
Definition py_mul (v : pyval) (n : Z) : result pyval :=
  match v with
  | VNum q => Ok (VNum (q * inject_Z n))
  | VStr s => Ok (VStr (repeat_str s (Z.to_nat n)))
  | VNone => Raise (Exception "unsupported operand type(s) for *: 'NoneType' and 'int'")
  | VDict _ => Raise (Exception "unsupported operand type(s) for *: 'dict' and 'int'")
  end.

Definition VInt (z : Z) : pyval := VNum (inject_Z z).

(** [for x in items: if hit(x): return x] *)
Fixpoint scan {A} (hit : A -> bool) (items : list A) : option A :=
  match items with
  | [] => None
  | x :: rest => if hit x then Some x else scan hit rest
  end.

(** ** music.py *)

Definition initialize_spotify_client (env : Env) : Eff (option Spotify) :=
  try_except
    (sp ← lift (connect env);
     mret (Some sp))
    (fun _ => mret None).

Definition create_track_info (track : RawTrack) : result (gmap string pyval) :=
  artist0 ← index0 (tr_artists track);
  album_image ←
    (if list_truthy (al_images (tr_album track))
     then image0 ← index0 (al_images (tr_album track)); mret (VStr (im_url image0))
     else mret VNone);
  mret (list_to_map
    [ ("id", VStr (tr_id track));
      ("name", VStr (tr_name track));
      ("artist", VStr (ar_name artist0));
      ("album", VStr (al_name (tr_album track)));
      ("album_image", album_image);
      ("preview_url", of_opt_str (tr_preview_url track));
      ("popularity", VInt (tr_popularity track));
      ("release_date", VStr (al_release_date (tr_album track)));
      ("duration_ms", VInt (tr_duration_ms track));
      ("external_url", VStr (tr_external_urls_spotify track));
      ("uri", VStr (tr_uri track)) ]).

Definition search_queries (track_name artist_name : string) : list string :=
  [ "track:" +:+ dquote +:+ track_name +:+ dquote
      +:+ " artist:" +:+ dquote +:+ artist_name +:+ dquote;
    track_name +:+ " " +:+ artist_name;
    track_name ].

Definition artist_match (artist_name : string) (track : RawTrack) : bool :=
  existsb (fun artist => str_in (lower artist_name) (lower (ar_name artist)))
          (tr_artists track).

Definition track_match (track_name : string) (track : RawTrack) : bool :=
  str_in (lower track_name) (lower (tr_name track)).

(** [track['preview_url']] used as a condition. *)
Definition has_preview (track : RawTrack) : bool :=
  truthy (of_opt_str (tr_preview_url track)).

Definition exact_match (track_name artist_name : string) (track : RawTrack) : bool :=
  artist_match artist_name track && track_match track_name track && has_preview track.

(** The body of [if results['tracks']['items']:], which always returns. *)
Definition pick_track (track_name artist_name : string) (items : list RawTrack)
    : result (gmap string pyval) :=
  match scan (exact_match track_name artist_name) items with
  | Some track => create_track_info track
  | None =>
      match scan has_preview items with
      | Some track => create_track_info track
      | None => track ← index0 items; create_track_info track
      end
  end.

(** [for query in search_queries: ...] followed by [return None]. *)
Fixpoint search_loop (sp : Spotify) (track_name artist_name : string)
    (queries : list string) : Eff (option (gmap string pyval)) :=
  match queries with
  | [] => mret None
  | query :: rest =>
      items ← call_search sp query "track" 10 "US";
      if list_truthy items
      then track_info ← lift (pick_track track_name artist_name items);
           mret (Some track_info)
      else search_loop sp track_name artist_name rest
  end.

Definition search_track_with_preview (sp : Spotify) (track_name artist_name : string)
    : Eff (option (gmap string pyval)) :=
  try_except
    (search_loop sp track_name artist_name (search_queries track_name artist_name))
    (fun _ => mret None).

Definition get_alternative_preview_url (track_name artist_name : string)
    : gmap string pyval :=
  list_to_map
    [ ("youtube_search",
       VStr ("https://www.youtube.com/results?search_query="
             +:+ quote (track_name +:+ " " +:+ artist_name +:+ " audio")));
      ("youtube_music",
       VStr ("https://music.youtube.com/search?q="
             +:+ quote (track_name +:+ " " +:+ artist_name)));
      ("soundcloud",
       VStr ("https://soundcloud.com/search?q="
             +:+ quote (track_name +:+ " " +:+ artist_name))) ].

(** The bundle [get_audio_features] returns when the service has nothing
    usable; the source writes the same literal at both places. *)
Definition default_audio_features : gmap string pyval :=
  list_to_map
    [ ("danceability", VInt 50);
      ("energy", VInt 50);
      ("speechiness", VInt 10);
      ("acousticness", VInt 30);
      ("instrumentalness", VInt 20);
      ("liveness", VInt 15);
      ("valence", VInt 50);
      ("tempo", VInt 120);
      ("loudness", VInt (-5));
      ("key", VInt 0);
      ("mode", VInt 1);
      ("time_signature", VInt 4) ].

(** [features and features[0]]: the first entry when it is a non-empty
    dict, nothing otherwise. *)
Definition usable_features (features : option (list (option (gmap string pyval))))
    : option (gmap string pyval) :=
  match features with
  | Some (Some audio_data :: _) =>
      if dict_truthy audio_data then Some audio_data else None
  | _ => None
  end.

(** The dict built from a usable record; a product may raise. *)
Definition scaled_features (audio_data : gmap string pyval)
    : result (gmap string pyval) :=
  danceability ← py_mul (dict_get audio_data "danceability" (VInt 0)) 100;
  energy ← py_mul (dict_get audio_data "energy" (VInt 0)) 100;
  speechiness ← py_mul (dict_get audio_data "speechiness" (VInt 0)) 100;
  acousticness ← py_mul (dict_get audio_data "acousticness" (VInt 0)) 100;
  instrumentalness ← py_mul (dict_get audio_data "instrumentalness" (VInt 0)) 100;
  liveness ← py_mul (dict_get audio_data "liveness" (VInt 0)) 100;
  valence ← py_mul (dict_get audio_data "valence" (VInt 0)) 100;
  mret (list_to_map
    [ ("danceability", danceability);
      ("energy", energy);
      ("speechiness", speechiness);
      ("acousticness", acousticness);
      ("instrumentalness", instrumentalness);
      ("liveness", liveness);
      ("valence", valence);
      ("tempo", dict_get audio_data "tempo" (VInt 120));
      ("loudness", dict_get audio_data "loudness" (VInt (-5)));
      ("key", dict_get audio_data "key" (VInt 0));
      ("mode", dict_get audio_data "mode" (VInt 1));
      ("time_signature", dict_get audio_data "time_signature" (VInt 4)) ]).

Definition get_audio_features (sp : Spotify) (track_id : pyval)
    : Eff (gmap string pyval) :=
  try_except
    (features ← call_audio_features sp track_id;
     match usable_features features with
     | Some audio_data => lift (scaled_features audio_data)
     | None => mret default_audio_features
     end)
    (fun _ => mret default_audio_features).

Definition client_failed_msg : string :=
  "Failed to initialize Spotify client. Please check your credentials.".

Definition not_found_msg (track_name artist_name : string) : string :=
  "Track '" +:+ track_name +:+ "' by '" +:+ artist_name +:+ "' not found on Spotify.".

Definition no_preview_msg : string :=
  "Spotify preview not available. Alternative listening options provided below.".

Definition error_msg (e : exn) : string :=
  "An error occurred: " +:+ str_exn e.

(** The entry point: the pair (record or [None], message or [None]).
    [if not track_info] is taken when the search returned [None] or an
    empty dict. *)
Definition get_track_preview (env : Env) (track_name artist_name : string)
    : Eff (option (gmap string pyval) * option string) :=
  try_except
    (sp ← initialize_spotify_client env;
     match sp with
     | None => mret (None, Some client_failed_msg)
     | Some sp =>
         found ← search_track_with_preview sp track_name artist_name;
         match found with
         | Some track_info =>
             if dict_truthy track_info then
               track_id ← lift (getitem track_info "id");
               audio_features ← get_audio_features sp track_id;
               let track_info := <["audio_features" := VDict audio_features]> track_info in
               let track_info :=
                 <["alternatives" :=
                     VDict (get_alternative_preview_url track_name artist_name)]> track_info in
               preview_url ← lift (getitem track_info "preview_url");
               if truthy preview_url
               then mret (Some track_info, None)
               else mret (Some track_info, Some no_preview_msg)
             else mret (None, Some (not_found_msg track_name artist_name))
         | None => mret (None, Some (not_found_msg track_name artist_name))
         end
     end)
    (fun e => mret (None, Some (error_msg e))).

(** Running a computation from an empty call log. *)
Definition run {A} (m : Eff A) : result A * list Call := m [].

(** The search call the loop issues for one query. *)
Definition tier_call (query : string) : Call := SearchCall query "track" 10 "US".

(** The answer of the service to the search call of one tier. *)
Definition answer (sp : Spotify) (query : string) : result (list RawTrack) :=
  sp_search sp query "track" 10 "US".

(** What [search_track_with_preview] makes of the outcome of [pick_track]. *)
Definition caught (r : result (gmap string pyval)) : option (gmap string pyval) :=
  match r with
  | Ok track_info => Some track_info
  | Raise _ => None
  end.

(** ** Candidate selection, as the specification words it *)

(** The condition of the first pass: the input artist is a case-insensitive
    substring of some contributing artist, the input title is one of the
    candidate's title, and a preview URL is present. *)
Definition ExactMatch (track_name artist_name : string) (c : RawTrack) : Prop :=
  (exists artist, artist ∈ tr_artists c
                  /\ contains (lower (ar_name artist)) (lower artist_name))
  /\ contains (lower (tr_name c)) (lower track_name)
  /\ has_preview c = true.

(** [Selected track_name artist_name items c]: [c] is the candidate the
    three passes choose in [items]. *)
Inductive Selected (track_name artist_name : string) (items : list RawTrack)
    : RawTrack -> Prop :=
  | selected_exact before c after :
      items = before ++ c :: after ->
      Forall (fun x => ~ ExactMatch track_name artist_name x) before ->
      ExactMatch track_name artist_name c ->
      Selected track_name artist_name items c
  | selected_preview before c after :
      Forall (fun x => ~ ExactMatch track_name artist_name x) items ->
      items = before ++ c :: after ->
      Forall (fun x => has_preview x = false) before ->
      has_preview c = true ->
      Selected track_name artist_name items c
  | selected_first c rest :
      Forall (fun x => ~ ExactMatch track_name artist_name x) items ->
      Forall (fun x => has_preview x = false) items ->
      items = c :: rest ->
      Selected track_name artist_name items c.

(** The candidate [pick_track] hands to [create_track_info]. *)
Definition chosen (track_name artist_name : string) (items : list RawTrack)
    : option RawTrack :=
  match scan (exact_match track_name artist_name) items with
  | Some track => Some track
  | None =>
      match scan has_preview items with
      | Some track => Some track
      | None => head items
      end
  end.

(** ** The feature record, as the specification words it *)

(** The fields the service reports as proportions between 0 and 1. *)
Definition proportion_fields : list string :=
  [ "danceability"; "energy"; "speechiness"; "acousticness";
    "instrumentalness"; "liveness"; "valence" ].


(** Every proportion the record holds is a number. *)
Definition numeric_proportions (audio_data : gmap string pyval) : bool :=
  forallb (fun k => match audio_data !! k with
                    | Some (VNum _) | None => true
                    | Some _ => false
                    end) proportion_fields.


(** The feature fetch gave nothing usable: the call raised, or answered
    [None], an empty list, a list starting with [None] or with an empty
    dict, or with a record one of whose proportions cannot be scaled. *)
Definition NothingUsable
    (r : result (option (list (option (gmap string pyval))))) : Prop :=
  (exists e, r = Raise e)
  \/ r = Ok None
  \/ r = Ok (Some [])
  \/ (exists rest, r = Ok (Some (None :: rest)))
  \/ (exists rest, r = Ok (Some (Some ∅ :: rest)))
  \/ (exists audio_data rest e,
        r = Ok (Some (Some audio_data :: rest))
        /\ scaled_features audio_data = Raise e).

(** The number a usable record holds for a proportion, 0 when it has none. *)
Definition proportion (audio_data : gmap string pyval) (k : string) : Q :=
  match audio_data !! k with
  | Some (VNum q) => q
  | _ => 0
  end.

(** ** The pieces of a resolved record *)

(** The dict [get_audio_features] returns for an identifier. *)
Definition fetched_features (sp : Spotify) (track_id : pyval) : gmap string pyval :=
  match sp_audio_features sp track_id with
  | Ok features =>
      match usable_features features with
      | Some audio_data =>
          match scaled_features audio_data with
          | Ok fs => fs
          | Raise _ => default_audio_features
          end
      | None => default_audio_features
      end
  | Raise _ => default_audio_features
  end.

(** The record after its two attachments are stored. *)
Definition assemble (track_name artist_name : string)
    (track_info audio_features : gmap string pyval) : gmap string pyval :=
  <["alternatives" := VDict (get_alternative_preview_url track_name artist_name)]>
    (<["audio_features" := VDict audio_features]> track_info).

(** The second component of a successful resolution. *)
Definition advisory (track : RawTrack) : option string :=
  if has_preview track then None else Some no_preview_msg.

(** Where a record returned by the search comes from: the candidate
    selected in the answer to one of the queries. *)
Definition from_tier (sp : Spotify) (track_name artist_name : string)
    (queries : list string) (track_info : gmap string pyval) : Prop :=
  exists query items track,
    query ∈ queries
    /\ answer sp query = Ok items
    /\ Selected track_name artist_name items track
    /\ create_track_info track = Ok track_info.

(** ** A small catalog to run the functions on *)

Module Demo.

Definition help_album : Album :=
  {| al_name := "Help!";
     al_images := [ {| im_url := "https://i.scdn.co/image/help" |} ];
     al_release_date := "1965-08-06" |}.

(** The original, which has no preview. *)
Definition yesterday : RawTrack :=
  {| tr_id := "3BQHpFgAp4l80e1XslIjNI";
     tr_name := "Yesterday - Remastered 2009";
     tr_artists := [ {| ar_name := "The Beatles" |} ];
     tr_album := help_album;
     tr_preview_url := None;
     tr_popularity := 80;
     tr_duration_ms := 125666;
     tr_external_urls_spotify := "https://open.spotify.com/track/3BQHpFgAp4l80e1XslIjNI";
     tr_uri := "spotify:track:3BQHpFgAp4l80e1XslIjNI" |}.

(** A cover by somebody else, which has one. *)
Definition cover : RawTrack :=
  {| tr_id := "7coverOfYesterday";
     tr_name := "Yesterday";
     tr_artists := [ {| ar_name := "String Quartet" |} ];
     tr_album := help_album;
     tr_preview_url := Some "https://p.scdn.co/mp3-preview/cover";
     tr_popularity := 12;
     tr_duration_ms := 130000;
     tr_external_urls_spotify := "https://open.spotify.com/track/7coverOfYesterday";
     tr_uri := "spotify:track:7coverOfYesterday" |}.

Definition title : string := "Yesterday".
Definition artist : string := "The Beatles".
Definition tier_a : string :=
  "track:" +:+ dquote +:+ title +:+ dquote
    +:+ " artist:" +:+ dquote +:+ artist +:+ dquote.
Definition tier_b : string := "Yesterday The Beatles".
Definition tier_c : string := "Yesterday".

(** A feature record without [valence]. *)
Definition some_features : gmap string pyval :=
  list_to_map
    [ ("danceability", VNum (1 # 2)); ("energy", VNum (1 # 4));
      ("speechiness", VNum (3 # 100)); ("acousticness", VNum (9 # 10));
      ("instrumentalness", VNum 0); ("liveness", VNum (1 # 10));
      ("tempo", VNum 97); ("key", VNum 5) ].

Definition two_items (q : string) : result (list RawTrack) :=
  if bool_decide (q = tier_b) then Ok [yesterday; cover] else Ok [].

(** Only the second tier finds something. *)
Definition sp_second_tier : Spotify :=
  {| sp_search := fun q _ _ _ => two_items q;
     sp_audio_features := fun _ => Ok (Some [Some some_features]) |}.

(** As above, but the first tier times out. *)
Definition sp_first_raises : Spotify :=
  {| sp_search := fun q _ _ _ =>
       if bool_decide (q = tier_a) then Raise (Exception "timeout") else two_items q;
     sp_audio_features := fun _ => Ok (Some [Some some_features]) |}.

(** No tier finds anything. *)
Definition sp_silent : Spotify :=
  {| sp_search := fun _ _ _ _ => Ok [];
     sp_audio_features := fun _ => Ok None |}.


Definition env_of (sp : Spotify) : Env := {| connect := Ok sp |}.

End Demo.

(** The client [sp] with the answer to one query replaced by an empty
    result page. *)
Definition answer_empty_at (sp : Spotify) (query : string) : Spotify :=
  {| sp_search := fun q type limit market =>
       if bool_decide (q = query) then Ok [] else sp_search sp q type limit market;
     sp_audio_features := sp_audio_features sp |}.

(** ** The rest of music.py *)

(** The character [chr(10)]. *)
Definition newline : string := String "010"%char EmptyString.

(** [create_spotify_embed(track_id)] for an identifier that is a [str]:
    the template with the identifier put in as it is. *)
Definition create_spotify_embed (track_id : string) : string :=
  newline
  +:+ "    <iframe src=" +:+ dquote +:+ "https://open.spotify.com/embed/track/"
  +:+ track_id +:+ dquote +:+ " " +:+ newline
  +:+ "            width=" +:+ dquote +:+ "100%" +:+ dquote +:+ " " +:+ newline
  +:+ "            height=" +:+ dquote +:+ "152" +:+ dquote +:+ " " +:+ newline
  +:+ "            frameborder=" +:+ dquote +:+ "0" +:+ dquote +:+ " " +:+ newline
  +:+ "            allowfullscreen=" +:+ dquote +:+ dquote +:+ " " +:+ newline
  +:+ "            allow=" +:+ dquote
  +:+ "autoplay; clipboard-write; encrypted-media; fullscreen; picture-in-picture"
  +:+ dquote +:+ " " +:+ newline
  +:+ "            loading=" +:+ dquote +:+ "lazy" +:+ dquote +:+ newline
  +:+ "            style=" +:+ dquote +:+ "border-radius: 12px;" +:+ dquote
  +:+ ">" +:+ newline
  +:+ "    </iframe>" +:+ newline
  +:+ "    ".

(** The keys of the dict [create_track_info] builds, of the dict
    [get_audio_features] returns and of the dict of links. *)
Definition track_info_keys : gset string :=
  list_to_set
    [ "id"; "name"; "artist"; "album"; "album_image"; "preview_url";
      "popularity"; "release_date"; "duration_ms"; "external_url"; "uri" ].

Definition feature_keys : gset string :=
  list_to_set
    [ "danceability"; "energy"; "speechiness"; "acousticness";
      "instrumentalness"; "liveness"; "valence"; "tempo"; "loudness"; "key";
      "mode"; "time_signature" ].

Definition link_keys : gset string :=
  list_to_set [ "youtube_search"; "youtube_music"; "soundcloud" ].

(** A character [quote] can put out: one it leaves alone, or the percent
    sign of an escape (whose two digits are themselves left alone). *)
Definition url_char (c : ascii) : bool :=
  is_safe c || bool_decide (c = "%"%char).

(** All characters of a string satisfy a test. *)
Fixpoint all_chars (test : ascii -> bool) (s : string) : bool :=
  match s with
  | EmptyString => true
  | String c s' => test c && all_chars test s'
  end.

(** ** app.py: what the script does with a track *)

Module App.

(** A message put on the page by [st.success], [st.warning] or [st.error]. *)
Inductive Notice : Type :=
  | Success (text : string)
  | Warning (text : string)
  | Error (text : string).

(** [error] used as a condition: a non-empty string. *)
Definition message_truthy (error : option string) : bool :=
  match error with
  | Some text => negb (bool_decide (text = EmptyString))
  | None => false
  end.

(** [track_data] used as a condition: a non-empty dict. *)
Definition data_truthy (track_data : option (gmap string pyval)) : bool :=
  match track_data with
  | Some d => dict_truthy d
  | None => false
  end.

(** The body of the Analyze button: the new value of
    [st.session_state.selected_track] and the message shown. *)
Definition analyze_track (env : Env) (selected_song selected_artist : string)
    : Eff (option (gmap string pyval) * Notice) :=
  r ← get_track_preview env selected_song selected_artist;
  let track_data := fst r in
  let error := snd r in
  if data_truthy track_data then
    if message_truthy error
    then mret (track_data, Warning ("⚠️ " +:+ default EmptyString error))
    else mret (track_data, Success "✅ Track data loaded successfully!")
  else
    mret (None,
          Error ("❌ " +:+ (if message_truthy error
                            then default EmptyString error
                            else "Unable to fetch track data"))).

(** The condition [track.get('preview_url')] that chooses between the
    preview player and the Spotify embed. *)
Definition has_preview_player (track : gmap string pyval) : bool :=
  truthy (dict_get track "preview_url" VNone).

(** [f"{n:02d}"] for an [int]. *)
Definition fmt_02d (n : Z) : string :=
  if (String.length (pretty n) <? 2)%nat then "0" +:+ pretty n else pretty n.

(** The duration shown on the track card, for [track['duration_ms']] an
    [int]: [f"{d // 60000}:{(d // 1000) % 60:02d}"]. *)
Definition duration_text (duration_ms : Z) : string :=
  pretty (duration_ms `div` 60000)%Z +:+ ":"
  +:+ fmt_02d ((duration_ms `div` 1000) `mod` 60)%Z.

(** A row of the dataset, with the two columns the script reads. *)
Record Row := { row_artist : string; row_track_name : string }.

(** [Series.unique()]: the values in order of first appearance. *)
Fixpoint unique (l : list string) : list string :=
  match l with
  | [] => []
  | x :: l' => x :: filter (fun y => y ≠ x) (unique l')
  end.

(** [sorted(l)] for strings: the one ascending arrangement of [l]. *)
Definition sorted (l : list string) : list string := merge_sort String.le l.

(** [sorted(df['artist'].unique())] *)
Definition artist_options (df : list Row) : list string :=
  sorted (unique (map row_artist df)).

(** [sorted(df[df['artist'] == selected_artist]['track_name'].unique())] *)
Definition song_options (df : list Row) (selected_artist : string) : list string :=
  sorted (unique (map row_track_name
                    (filter (fun r => row_artist r = selected_artist) df))).

(** [len(df)] and [df['artist'].nunique()] of the statistics cards. *)
Definition total_tracks (df : list Row) : nat := length df.

Definition unique_artists (df : list Row) : nat :=
  length (unique (map row_artist df)).

End App.

(** ** More sample data *)

Module Sample.

(** A candidate that lists no artist. *)
Definition anonymous : RawTrack :=
  {| tr_id := "0anonymousTrack";
     tr_name := "Yesterday";
     tr_artists := [];
     tr_album := Demo.help_album;
     tr_preview_url := Some "https://p.scdn.co/mp3-preview/anonymous";
     tr_popularity := 1;
     tr_duration_ms := 90000;
     tr_external_urls_spotify := "https://open.spotify.com/track/0anonymousTrack";
     tr_uri := "spotify:track:0anonymousTrack" |}.

(** The first tier finds only the candidate without artist. *)
Definition sp_anonymous : Spotify :=
  {| sp_search := fun q _ _ _ =>
       if bool_decide (q = Demo.tier_a) then Ok [anonymous] else Demo.two_items q;
     sp_audio_features := fun _ => Ok None |}.

(** A feature record whose danceability is null. *)
Definition null_features : gmap string pyval :=
  list_to_map
    [ ("danceability", VNone); ("energy", VNum (1 # 4)); ("tempo", VNum 97) ].

(** The first tier finds only the original, which has no preview, and
    the feature record has a null. *)
Definition sp_original : Spotify :=
  {| sp_search := fun q _ _ _ =>
       if bool_decide (q = Demo.tier_a) then Ok [Demo.yesterday] else Ok [];
     sp_audio_features := fun _ => Ok (Some [Some null_features]) |}.

(** A dataset of four rows. *)
Definition songs : list App.Row :=
  [ {| App.row_artist := "The Beatles"; App.row_track_name := "Yesterday" |};
    {| App.row_artist := "Queen"; App.row_track_name := "Bohemian Rhapsody" |};
    {| App.row_artist := "The Beatles"; App.row_track_name := "Help!" |};
    {| App.row_artist := "The Beatles"; App.row_track_name := "Yesterday" |} ].



End Sample.

(** * Properties *)

(** ** Strings: [in] decides containment *)

Section StringFacts.

Lemma prefix_spec (p s : string) :
  String.prefix p s = true <-> exists post, s = p +:+ post.
Proof.
  revert s. induction p as [|c p IH]; intros s.
  - split; [intros _; now exists s | intros _; now destruct s].
  - destruct s as [|c' s']; simpl.
    + split; [discriminate | intros [post H]; discriminate].
    + destruct (ascii_dec c c') as [->|Hne].
      * rewrite IH. split; intros [post H]; exists post.
        -- now rewrite H.
        -- now injection H.
      * split; [discriminate | intros [post H]; injection H; congruence].
Qed.

Lemma str_in_spec (needle hay : string) :
  str_in needle hay = true <-> contains hay needle.
Proof.
  unfold contains. split.
  - induction hay as [|c hay IH]; cbn [str_in]; intros H;
      apply orb_true_iff in H as [H|H].
    + apply prefix_spec in H as [post ->]. now exists EmptyString, post.
    + discriminate.
    + apply prefix_spec in H as [post ->]. now exists EmptyString, post.
    + destruct (IH H) as (pre & post & ->). now exists (String c pre), post.
  - intros (pre & post & ->). induction pre as [|c pre IH].
    + assert (Hp : String.prefix needle (needle +:+ post) = true)
        by (apply prefix_spec; now exists post).
      change (EmptyString +:+ needle +:+ post) with (needle +:+ post).
      destruct (needle +:+ post); cbn [str_in]; rewrite Hp; reflexivity.
    + change (String c pre +:+ needle +:+ post)
        with (String c (pre +:+ needle +:+ post)).
      cbn [str_in]. rewrite IH. apply orb_true_r.
Qed.

Lemma str_in_false (needle hay : string) :
  str_in needle hay = false -> ~ contains hay needle.
Proof.
  intros H Hc. apply str_in_spec in Hc. congruence.
Qed.

Lemma append_assoc (a b c : string) : (a +:+ b) +:+ c = a +:+ (b +:+ c).
Proof.
  induction a as [|x a IH]; [reflexivity|].
  change (String x ((a +:+ b) +:+ c) = String x (a +:+ (b +:+ c))).
  now rewrite IH.
Qed.

End StringFacts.

(** ** One step of a computation *)

Section Steps.

Context {A B : Type}.

Lemma bind_ok (m : Eff A) (f : A -> Eff B) log a log' :
  m log = (Ok a, log') -> (m ≫= f) log = f a log'.
Proof. intros H. unfold mbind, eff_bind. now rewrite H. Qed.

Lemma bind_raise (m : Eff A) (f : A -> Eff B) log e log' :
  m log = (Raise e, log') -> (m ≫= f) log = (Raise e, log').
Proof. intros H. unfold mbind, eff_bind. now rewrite H. Qed.

End Steps.

(** ** The tiered search *)

Section TieredSearch.

Variable sp : Spotify.
Variables track_name artist_name : string.

Lemma search_loop_skip (pre rest : list string) (log : list Call) :
  Forall (fun q => answer sp q = Ok []) pre ->
  search_loop sp track_name artist_name (pre ++ rest) log
  = search_loop sp track_name artist_name rest (log ++ map tier_call pre).
Proof.
  intros Hpre. revert log.
  induction Hpre as [|q pre Hq _ IH]; intros log; simpl.
  - now rewrite app_nil_r.
  - unfold answer in Hq.
    erewrite bind_ok by (unfold call_search; rewrite Hq; reflexivity).
    simpl. rewrite IH. unfold tier_call at 2. now rewrite <- app_assoc.
Qed.

Lemma search_loop_hit (query : string) (rest : list string)
    (items : list RawTrack) (log : list Call) :
  answer sp query = Ok items -> items <> [] ->
  search_loop sp track_name artist_name (query :: rest) log
  = (match pick_track track_name artist_name items with
     | Ok track_info => Ok (Some track_info)
     | Raise e => Raise e
     end, log ++ [tier_call query]).
Proof.
  intros Hq Hne. simpl. unfold answer in Hq.
  erewrite bind_ok by (unfold call_search; rewrite Hq; reflexivity).
  destruct items as [|x items]; [congruence|]. simpl.
  unfold mbind, eff_bind, lift, mret, eff_ret.
  now destruct (pick_track track_name artist_name (x :: items)).
Qed.

Lemma search_loop_raise (query : string) (rest : list string) (e : exn)
    (log : list Call) :
  answer sp query = Raise e ->
  search_loop sp track_name artist_name (query :: rest) log
  = (Raise e, log ++ [tier_call query]).
Proof.
  intros Hq. simpl. unfold answer in Hq.
  apply bind_raise. unfold call_search. now rewrite Hq.
Qed.

(** The calls of the loop are search calls for a prefix of its queries. *)
Lemma search_loop_log (queries : list string) (log : list Call) :
  exists n, snd (search_loop sp track_name artist_name queries log)
            = log ++ map tier_call (take n queries).
Proof.
  revert log. induction queries as [|q queries IH]; intros log.
  - exists 0%nat. simpl. now rewrite app_nil_r.
  - destruct (answer sp q) as [items|e] eqn:Hq.
    + destruct items as [|x items].
      * destruct (IH (log ++ [tier_call q])) as [n Hn].
        exists (S n). change (q :: queries) with ([q] ++ queries) at 1.
        rewrite (search_loop_skip [q] queries log) by (repeat constructor; exact Hq).
        simpl in *. rewrite Hn. now rewrite <- app_assoc.
      * exists 1%nat. rewrite (search_loop_hit q queries (x :: items)) by easy.
        reflexivity.
    + exists 1%nat. rewrite (search_loop_raise q queries e) by easy.
      reflexivity.
Qed.

Lemma search_with_preview_log (log : list Call) :
  exists n, snd (search_track_with_preview sp track_name artist_name log)
            = log ++ map tier_call (take n (search_queries track_name artist_name)).
Proof.
  destruct (search_loop_log (search_queries track_name artist_name) log) as [n Hn].
  exists n. unfold search_track_with_preview, try_except.
  destruct (search_loop _ _ _ _ log) as [[r|e] log']; exact Hn.
Qed.

Lemma search_with_preview_hit (pre post : list string) (query : string)
    (items : list RawTrack) (log : list Call) :
  search_queries track_name artist_name = pre ++ query :: post ->
  Forall (fun q => answer sp q = Ok []) pre ->
  answer sp query = Ok items -> items <> [] ->
  search_track_with_preview sp track_name artist_name log
  = (Ok (caught (pick_track track_name artist_name items)),
     log ++ map tier_call (pre ++ [query])).
Proof.
  intros Hqs Hpre Hq Hne. unfold search_track_with_preview, try_except.
  rewrite Hqs, (search_loop_skip pre) by exact Hpre.
  rewrite (search_loop_hit query post items) by assumption.
  rewrite map_app, app_assoc. simpl.
  now destruct (pick_track track_name artist_name items).
Qed.

Lemma search_with_preview_raise (pre post : list string) (query : string)
    (e : exn) (log : list Call) :
  search_queries track_name artist_name = pre ++ query :: post ->
  Forall (fun q => answer sp q = Ok []) pre ->
  answer sp query = Raise e ->
  search_track_with_preview sp track_name artist_name log
  = (Ok None, log ++ map tier_call (pre ++ [query])).
Proof.
  intros Hqs Hpre Hq. unfold search_track_with_preview, try_except.
  rewrite Hqs, (search_loop_skip pre) by exact Hpre.
  rewrite (search_loop_raise query post e) by assumption.
  now rewrite map_app, app_assoc.
Qed.

Lemma search_with_preview_empty (log : list Call) :
  Forall (fun q => answer sp q = Ok []) (search_queries track_name artist_name) ->
  search_track_with_preview sp track_name artist_name log
  = (Ok None, log ++ map tier_call (search_queries track_name artist_name)).
Proof.
  intros Hall. unfold search_track_with_preview, try_except.
  rewrite <- (app_nil_r (search_queries track_name artist_name)) at 1.
  now rewrite (search_loop_skip _ []) by exact Hall.
Qed.

End TieredSearch.

(** ** Candidate selection *)

Section Selection.

Variables track_name artist_name : string.

Lemma scan_Some {A} (hit : A -> bool) (items : list A) (c : A) :
  scan hit items = Some c <->
  exists before after,
    items = before ++ c :: after
    /\ Forall (fun x => hit x = false) before /\ hit c = true.
Proof.
  induction items as [|x items IH]; simpl.
  - split; [discriminate | intros ([|? ?] & after & H & _); discriminate].
  - destruct (hit x) eqn:Hx.
    + split.
      * intros [= ->]. exists [], items. auto.
      * intros ([|y before] & after & H & Hb & Hc); simplify_eq/=; [reflexivity|].
        apply Forall_cons in Hb as [Hy _]. congruence.
    + rewrite IH. split.
      * intros (before & after & -> & Hb & Hc).
        exists (x :: before), after. auto.
      * intros ([|y before] & after & H & Hb & Hc); simplify_eq/=; [congruence|].
        apply Forall_cons in Hb as [_ Hb]. eauto.
Qed.

Lemma scan_None {A} (hit : A -> bool) (items : list A) :
  scan hit items = None <-> Forall (fun x => hit x = false) items.
Proof.
  induction items as [|x items IH]; simpl.
  - split; auto.
  - destruct (hit x) eqn:Hx.
    + split; [discriminate | intros [H _]%Forall_cons; congruence].
    + rewrite IH. split; [auto | now intros [_ H]%Forall_cons].
Qed.

Lemma exact_match_spec (c : RawTrack) :
  exact_match track_name artist_name c = true
  <-> ExactMatch track_name artist_name c.
Proof.
  unfold exact_match, ExactMatch, artist_match, track_match.
  rewrite !andb_true_iff, existsb_exists, str_in_spec.
  split.
  - intros [[(artist & Hin & Ha) Ht] Hp]. repeat split; try assumption.
    exists artist. split; [now apply list_elem_of_In | now apply str_in_spec].
  - intros [(artist & Hin & Ha) [Ht Hp]]. repeat split; try assumption.
    exists artist. split; [now apply list_elem_of_In | now apply str_in_spec].
Qed.

Lemma exact_match_false (c : RawTrack) :
  exact_match track_name artist_name c = false
  <-> ~ ExactMatch track_name artist_name c.
Proof.
  rewrite <- exact_match_spec. now destruct (exact_match _ _ c).
Qed.

Lemma Forall_exact_false (l : list RawTrack) :
  Forall (fun x => exact_match track_name artist_name x = false) l
  <-> Forall (fun x => ~ ExactMatch track_name artist_name x) l.
Proof. apply Forall_iff. intros x. apply exact_match_false. Qed.

(** The relation of the specification and the scan of the code agree. *)
Lemma Selected_iff (items : list RawTrack) (c : RawTrack) :
  Selected track_name artist_name items c
  <-> chosen track_name artist_name items = Some c.
Proof.
  unfold chosen. split.
  - intros [before c' after Hi Hb Hc | before c' after Hn Hi Hb Hc | c' rest Hn Hp Hi].
    + assert (H : scan (exact_match track_name artist_name) items = Some c').
      { apply scan_Some. exists before, after.
        rewrite Forall_exact_false, exact_match_spec. auto. }
      now rewrite H.
    + apply Forall_exact_false, scan_None in Hn. rewrite Hn.
      assert (H : scan has_preview items = Some c')
        by (apply scan_Some; eauto).
      now rewrite H.
    + apply Forall_exact_false, scan_None in Hn. rewrite Hn.
      apply scan_None in Hp. rewrite Hp. now subst items.
  - destruct (scan (exact_match _ _) items) as [t|] eqn:He.
    + intros [= ->]. apply scan_Some in He as (before & after & Hi & Hb & Hc).
      apply (selected_exact _ _ _ before c after Hi).
      * now apply Forall_exact_false.
      * now apply exact_match_spec.
    + apply scan_None, Forall_exact_false in He.
      destruct (scan has_preview items) as [t|] eqn:Hp.
      * intros [= ->]. apply scan_Some in Hp as (before & after & Hi & Hb & Hc).
        now apply (selected_preview _ _ _ before c after).
      * apply scan_None in Hp. destruct items as [|x rest]; [discriminate|].
        intros [= ->]. now apply (selected_first _ _ _ c rest).
Qed.

Lemma chosen_nonempty (items : list RawTrack) :
  items <> [] -> exists c, chosen track_name artist_name items = Some c.
Proof.
  intros Hne. unfold chosen.
  destruct (scan (exact_match _ _) items); [eauto|].
  destruct (scan has_preview items); [eauto|].
  destruct items; [congruence | simpl; eauto].
Qed.

Lemma pick_track_chosen (items : list RawTrack) (c : RawTrack) :
  chosen track_name artist_name items = Some c ->
  pick_track track_name artist_name items = create_track_info c.
Proof.
  unfold chosen, pick_track.
  destruct (scan (exact_match _ _) items); [now intros [= ->]|].
  destruct (scan has_preview items); [now intros [= ->]|].
  destruct items; [discriminate | now intros [= ->]].
Qed.

End Selection.

(** ** Building the record *)

Section Record.

Lemma create_track_info_inv (track : RawTrack) (track_info : gmap string pyval) :
  create_track_info track = Ok track_info ->
  exists artist0 album_image,
    head (tr_artists track) = Some artist0
    /\ track_info = list_to_map
         [ ("id", VStr (tr_id track));
           ("name", VStr (tr_name track));
           ("artist", VStr (ar_name artist0));
           ("album", VStr (al_name (tr_album track)));
           ("album_image", album_image);
           ("preview_url", of_opt_str (tr_preview_url track));
           ("popularity", VInt (tr_popularity track));
           ("release_date", VStr (al_release_date (tr_album track)));
           ("duration_ms", VInt (tr_duration_ms track));
           ("external_url", VStr (tr_external_urls_spotify track));
           ("uri", VStr (tr_uri track)) ].
Proof.
  unfold create_track_info.
  destruct (tr_artists track) as [|artist0 others]; [discriminate|]. simpl.
  destruct (al_images (tr_album track)) as [|image0 images]; simpl;
    intros [= <-]; eauto.
Qed.


Lemma create_track_info_id (track : RawTrack) (track_info : gmap string pyval) :
  create_track_info track = Ok track_info ->
  track_info !! "id" = Some (VStr (tr_id track)).
Proof.
  intros (artist0 & album_image & _ & ->)%create_track_info_inv. reflexivity.
Qed.

Lemma create_track_info_preview (track : RawTrack) (track_info : gmap string pyval) :
  create_track_info track = Ok track_info ->
  track_info !! "preview_url" = Some (of_opt_str (tr_preview_url track)).
Proof.
  intros (artist0 & album_image & _ & ->)%create_track_info_inv. reflexivity.
Qed.

Lemma lookup_dict_truthy (d : gmap string pyval) (k : string) (v : pyval) :
  d !! k = Some v -> dict_truthy d = true.
Proof.
  intros Hk. unfold dict_truthy. apply negb_true_iff, bool_decide_eq_false.
  intros Hsize. apply map_size_empty_iff in Hsize. subst d.
  now rewrite lookup_empty in Hk.
Qed.

Lemma create_track_info_truthy (track : RawTrack) (track_info : gmap string pyval) :
  create_track_info track = Ok track_info -> dict_truthy track_info = true.
Proof.
  intros H%create_track_info_id. eapply lookup_dict_truthy, H.
Qed.

Lemma pick_track_from (track_name artist_name : string) (items : list RawTrack)
    (track_info : gmap string pyval) :
  pick_track track_name artist_name items = Ok track_info ->
  exists track,
    Selected track_name artist_name items track
    /\ create_track_info track = Ok track_info.
Proof.
  intros Hpick. destruct items as [|x items]; [discriminate|].
  destruct (chosen_nonempty track_name artist_name (x :: items)) as [track Hc];
    [discriminate|].
  exists track. split; [now apply Selected_iff|].
  now rewrite <- (pick_track_chosen _ _ _ _ Hc).
Qed.

End Record.

(** ** The search never raises *)

Section SearchTotal.

Variable sp : Spotify.
Variables track_name artist_name : string.

Lemma search_loop_from (queries : list string) (log log' : list Call)
    (track_info : gmap string pyval) :
  search_loop sp track_name artist_name queries log = (Ok (Some track_info), log') ->
  from_tier sp track_name artist_name queries track_info.
Proof.
  revert log. induction queries as [|q queries IH]; intros log.
  - discriminate.
  - destruct (answer sp q) as [[|x items]|e] eqn:Hq.
    + change (q :: queries) with ([q] ++ queries) at 1.
      rewrite (search_loop_skip sp _ _ [q]) by (repeat constructor; exact Hq).
      intros (query & items & track & Hin & H)%IH.
      exists query, items, track. split; [now constructor | exact H].
    + rewrite (search_loop_hit sp _ _ q queries (x :: items)) by easy.
      destruct (pick_track _ _ (x :: items)) as [info|e] eqn:Hp; [|discriminate].
      intros [= <- _]. apply pick_track_from in Hp as (track & Hsel & H).
      exists q, (x :: items), track. split; [constructor | auto].
    + rewrite (search_loop_raise sp _ _ q queries e) by easy. discriminate.
Qed.

Lemma search_with_preview_total (log : list Call) :
  exists found log',
    search_track_with_preview sp track_name artist_name log = (Ok found, log')
    /\ forall track_info, found = Some track_info ->
         from_tier sp track_name artist_name
           (search_queries track_name artist_name) track_info.
Proof.
  unfold search_track_with_preview, try_except.
  destruct (search_loop _ _ _ _ log) as [[found|e] log'] eqn:Hl.
  - exists found, log'. split; [reflexivity|]. intros info ->.
    eapply search_loop_from, Hl.
  - exists None, log'. split; [reflexivity | discriminate].
Qed.

End SearchTotal.

(** Case analysis on a field drawn from one of the two field lists. *)
Ltac each_field H :=
  repeat (apply elem_of_cons in H as [H|H]; [simplify_eq|]);
  try (now apply elem_of_nil in H).

(** ** The feature fetch *)

Section Features.

Variable sp : Spotify.

Lemma get_audio_features_run (track_id : pyval) (log : list Call) :
  get_audio_features sp track_id log
  = (Ok (fetched_features sp track_id), log ++ [AudioFeaturesCall track_id]).
Proof.
  unfold fetched_features, get_audio_features, try_except, call_audio_features, mbind, eff_bind.
  destruct (sp_audio_features sp track_id) as [features|e]; [|reflexivity].
  destruct (usable_features features) as [audio_data|]; [|reflexivity].
  unfold lift. now destruct (scaled_features audio_data).
Qed.

Lemma usable_features_first (audio_data : gmap string pyval)
    (rest : list (option (gmap string pyval))) :
  audio_data <> ∅ ->
  usable_features (Some (Some audio_data :: rest)) = Some audio_data.
Proof.
  intros Hne. unfold usable_features, dict_truthy.
  rewrite bool_decide_eq_false_2; [reflexivity|].
  now rewrite map_size_empty_iff.
Qed.

Lemma numeric_proportions_spec (audio_data : gmap string pyval) (k : string)
    (v : pyval) :
  numeric_proportions audio_data = true -> k ∈ proportion_fields ->
  audio_data !! k = Some v -> exists q, v = VNum q.
Proof.
  unfold numeric_proportions. rewrite forallb_forall.
  intros Hnum Hk%list_elem_of_In Hv. specialize (Hnum k Hk).
  rewrite Hv in Hnum. destruct v; try discriminate. eauto.
Qed.



Lemma dict_get_proportion (audio_data : gmap string pyval) (k : string) :
  numeric_proportions audio_data = true -> k ∈ proportion_fields ->
  dict_get audio_data k (VInt 0) = VNum (proportion audio_data k).
Proof.
  intros Hnum Hk. unfold dict_get, proportion.
  destruct (audio_data !! k) as [v|] eqn:Hv; [|reflexivity].
  destruct (numeric_proportions_spec _ k v Hnum Hk Hv) as [q ->]. reflexivity.
Qed.

Lemma scaled_features_numeric (audio_data : gmap string pyval) :
  numeric_proportions audio_data = true ->
  scaled_features audio_data = Ok (list_to_map
    [ ("danceability", VNum (proportion audio_data "danceability" * 100));
      ("energy", VNum (proportion audio_data "energy" * 100));
      ("speechiness", VNum (proportion audio_data "speechiness" * 100));
      ("acousticness", VNum (proportion audio_data "acousticness" * 100));
      ("instrumentalness", VNum (proportion audio_data "instrumentalness" * 100));
      ("liveness", VNum (proportion audio_data "liveness" * 100));
      ("valence", VNum (proportion audio_data "valence" * 100));
      ("tempo", dict_get audio_data "tempo" (VInt 120));
      ("loudness", dict_get audio_data "loudness" (VInt (-5)));
      ("key", dict_get audio_data "key" (VInt 0));
      ("mode", dict_get audio_data "mode" (VInt 1));
      ("time_signature", dict_get audio_data "time_signature" (VInt 4)) ]).
Proof.
  intros Hnum. unfold scaled_features.
  assert (Hget : forall k, k ∈ proportion_fields ->
            dict_get audio_data k (VInt 0) = VNum (proportion audio_data k))
    by (intros k; now apply dict_get_proportion).
  rewrite (Hget "danceability"), (Hget "energy"), (Hget "speechiness"),
    (Hget "acousticness"), (Hget "instrumentalness"), (Hget "liveness"),
    (Hget "valence") by (unfold proportion_fields; repeat constructor).
  reflexivity.
Qed.

Lemma nothing_usable_default (track_id : pyval) (log : list Call) :
  NothingUsable (sp_audio_features sp track_id) ->
  get_audio_features sp track_id log
  = (Ok default_audio_features, log ++ [AudioFeaturesCall track_id]).
Proof.
  intros H. rewrite get_audio_features_run. unfold fetched_features.
  destruct H as [[e ->] | [-> | [-> | [[rest ->] | [[rest ->] | H]]]]];
    try reflexivity.
  destruct H as (audio_data & rest & e & -> & Hs). simpl.
  destruct (dict_truthy audio_data); [now rewrite Hs | reflexivity].
Qed.







End Features.

(** ** The entry point *)

Section Resolve.

Variable env : Env.
Variables track_name artist_name : string.

Lemma get_track_preview_no_client (e : exn) (log : list Call) :
  connect env = Raise e ->
  get_track_preview env track_name artist_name log
  = (Ok (None, Some client_failed_msg), log).
Proof.
  intros Hc. unfold get_track_preview, try_except, initialize_spotify_client,
    mbind, eff_bind, lift. now rewrite Hc.
Qed.

Lemma get_track_preview_absent (sp : Spotify) (log log' : list Call) :
  connect env = Ok sp ->
  search_track_with_preview sp track_name artist_name log = (Ok None, log') ->
  get_track_preview env track_name artist_name log
  = (Ok (None, Some (not_found_msg track_name artist_name)), log').
Proof.
  intros Hc Hs. unfold get_track_preview, try_except at 1,
    initialize_spotify_client, try_except, mbind, eff_bind, lift.
  rewrite Hc. simpl. now rewrite Hs.
Qed.

Lemma get_track_preview_found (sp : Spotify) (log log' : list Call)
    (track : RawTrack) (track_info : gmap string pyval) :
  connect env = Ok sp ->
  search_track_with_preview sp track_name artist_name log
    = (Ok (Some track_info), log') ->
  create_track_info track = Ok track_info ->
  get_track_preview env track_name artist_name log
  = (Ok (Some (assemble track_name artist_name track_info
                 (fetched_features sp (VStr (tr_id track)))),
         advisory track),
     log' ++ [AudioFeaturesCall (VStr (tr_id track))]).
Proof.
  intros Hc Hs Hinfo. unfold get_track_preview, try_except at 1,
    initialize_spotify_client, try_except, mbind, eff_bind, lift.
  rewrite Hc. simpl. rewrite Hs.
  rewrite (create_track_info_truthy track track_info Hinfo).
  unfold getitem at 1. rewrite (create_track_info_id track track_info Hinfo).
  rewrite get_audio_features_run. unfold getitem.
  rewrite !lookup_insert_ne by discriminate.
  rewrite (create_track_info_preview track track_info Hinfo).
  unfold advisory, has_preview, assemble.
  now destruct (truthy (of_opt_str (tr_preview_url track))).
Qed.

(** Every run ends in one of three ways. *)
Lemma get_track_preview_cases (log : list Call) :
  fst (get_track_preview env track_name artist_name log)
    = Ok (None, Some client_failed_msg)
  \/ fst (get_track_preview env track_name artist_name log)
    = Ok (None, Some (not_found_msg track_name artist_name))
  \/ exists sp query items track track_info,
       connect env = Ok sp
       /\ answer sp query = Ok items
       /\ Selected track_name artist_name items track
       /\ create_track_info track = Ok track_info
       /\ fst (get_track_preview env track_name artist_name log)
          = Ok (Some (assemble track_name artist_name track_info
                        (fetched_features sp (VStr (tr_id track)))),
                advisory track).
Proof.
  destruct (connect env) as [sp|e] eqn:Hc.
  - destruct (search_with_preview_total sp track_name artist_name log)
      as (found & log' & Hs & Hfrom).
    destruct found as [track_info|].
    + destruct (Hfrom track_info eq_refl)
        as (query & items & track & _ & Hq & Hsel & Hinfo).
      right; right. exists sp, query, items, track, track_info.
      rewrite (get_track_preview_found sp log log' track track_info) by assumption.
      auto.
    + right; left. now rewrite (get_track_preview_absent sp log log').
  - left. now rewrite (get_track_preview_no_client e).
Qed.

End Resolve.

(** * The claims *)

(** C1: the search builds exactly three queries in priority order (the
    field-constrained query on title and artist, title and artist joined
    by a space, the title alone); every search call asks for tracks with
    limit 10 in the market US and is made for a prefix of these queries;
    and when the queries before [query] return empty result sets and
    [query] returns a non-empty one, the search calls are exactly those up
    to [query], no later query is executed, and the result is what
    candidate selection makes of that result set, whatever it holds. *)
Theorem first_nonempty_tier_wins (sp : Spotify) (track_name artist_name : string)
    (pre post : list string) (query : string) (items : list RawTrack)
    (log : list Call) :
  search_queries track_name artist_name = pre ++ query :: post ->
  Forall (fun q => sp_search sp q "track" 10 "US" = Ok []) pre ->
  sp_search sp query "track" 10 "US" = Ok items ->
  items <> [] ->
  search_queries track_name artist_name
    = [ "track:" +:+ dquote +:+ track_name +:+ dquote
          +:+ " artist:" +:+ dquote +:+ artist_name +:+ dquote;
        track_name +:+ " " +:+ artist_name;
        track_name ]
  /\ (exists n, snd (search_track_with_preview sp track_name artist_name log)
                = log ++ map (fun q => SearchCall q "track" 10 "US")
                             (take n (search_queries track_name artist_name)))
  /\ search_track_with_preview sp track_name artist_name log
     = (Ok (caught (pick_track track_name artist_name items)),
        log ++ map (fun q => SearchCall q "track" 10 "US") (pre ++ [query])).
Proof.
  intros Hqs Hpre Hq Hne. split; [reflexivity|]. split.
  - apply search_with_preview_log.
  - now apply (search_with_preview_hit sp track_name artist_name pre post).
Qed.

Lemma first_nonempty_tier_wins_witness :
  search_track_with_preview Demo.sp_second_tier Demo.title Demo.artist []
  = (Ok (caught (pick_track Demo.title Demo.artist [Demo.yesterday; Demo.cover])),
     [ SearchCall Demo.tier_a "track" 10 "US";
       SearchCall Demo.tier_b "track" 10 "US" ]).
Proof.
  apply (first_nonempty_tier_wins Demo.sp_second_tier Demo.title Demo.artist
           [Demo.tier_a] [Demo.tier_c] Demo.tier_b [Demo.yesterday; Demo.cover] []).
  - reflexivity.
  - repeat constructor.
  - reflexivity.
  - discriminate.
Defined.



(** The second pass at work: the original matches by name but has no
    preview, so the cover, which has one, is selected. *)
Example cover_selected :
  Selected Demo.title Demo.artist [Demo.yesterday; Demo.cover] Demo.cover.
Proof. now apply Selected_iff. Qed.

(** C3, as stated, fails: when the first search call raises, resolution
    reports the track as not found, and the reason does not carry the
    description of the exception. *)
Lemma search_exception_not_described :
  ~ (forall (env : Env) (sp : Spotify) (track_name artist_name : string)
            (query : string) (rest : list string) (e : exn),
        connect env = Ok sp ->
        search_queries track_name artist_name = query :: rest ->
        sp_search sp query "track" 10 "US" = Raise e ->
        exists reason,
          fst (run (get_track_preview env track_name artist_name))
            = Ok (None, Some reason)
          /\ contains reason (str_exn e)).
Proof.
  intros H.
  destruct (H (Demo.env_of Demo.sp_first_raises) Demo.sp_first_raises
              Demo.title Demo.artist Demo.tier_a [Demo.tier_b; Demo.tier_c]
              (Exception "timeout") eq_refl eq_refl eq_refl)
    as (reason & Hrun & Hin).
  vm_compute in Hrun. injection Hrun as <-.
  revert Hin. apply str_in_false. vm_compute. reflexivity.
Qed.

(** C3, amended: resolution never raises. It returns a record together
    with no message or the no-preview advisory, or no record together with
    one of two fixed reasons: the client could not be initialised, or the
    track was not found (naming title and artist). Exceptions of the
    client are caught where they arise, and neither reason carries their
    description. *)
Theorem get_track_preview_never_raises (env : Env) (track_name artist_name : string)
    (log : list Call) :
  exists record message,
    fst (get_track_preview env track_name artist_name log) = Ok (record, message)
    /\ ((is_Some record /\ (message = None \/ message = Some no_preview_msg))
        \/ (record = None
            /\ (message = Some client_failed_msg
                \/ message = Some (not_found_msg track_name artist_name)))).
Proof.
  destruct (get_track_preview_cases env track_name artist_name log)
    as [H | [H | (sp & query & items & track & track_info & _ & _ & _ & _ & H)]];
    rewrite H.
  - exists None, (Some client_failed_msg). auto.
  - exists None, (Some (not_found_msg track_name artist_name)). auto.
  - eexists _, _. split; [reflexivity|]. left. split; [eauto|].
    unfold advisory. destruct (has_preview track); auto.
Qed.

(** C4, as stated, fails: when the first tier raises, the search does not
    go on as if that tier had returned nothing. *)
Lemma failed_tier_not_skipped :
  ~ (forall (sp : Spotify) (track_name artist_name : string) (query : string)
            (e : exn),
        query ∈ search_queries track_name artist_name ->
        sp_search sp query "track" 10 "US" = Raise e ->
        run (search_track_with_preview sp track_name artist_name)
        = run (search_track_with_preview (answer_empty_at sp query)
                 track_name artist_name)).
Proof.
  intros H.
  specialize (H Demo.sp_first_raises Demo.title Demo.artist Demo.tier_a
                (Exception "timeout")).
  assert (Hin : Demo.tier_a ∈ search_queries Demo.title Demo.artist) by constructor.
  specialize (H Hin eq_refl).
  apply (f_equal (fun r => length (snd r))) in H. vm_compute in H. discriminate.
Qed.

(** C4, amended: when the tiers before [query] return empty result sets
    and the search call of [query] raises, the search stops there: it
    returns no track, its calls are exactly those up to [query], no later
    tier is attempted, and resolution reports the track as not found
    instead of raising. *)
Theorem failed_tier_ends_search (env : Env) (sp : Spotify)
    (track_name artist_name : string) (pre post : list string) (query : string)
    (e : exn) (log : list Call) :
  connect env = Ok sp ->
  search_queries track_name artist_name = pre ++ query :: post ->
  Forall (fun q => sp_search sp q "track" 10 "US" = Ok []) pre ->
  sp_search sp query "track" 10 "US" = Raise e ->
  search_track_with_preview sp track_name artist_name log
    = (Ok None, log ++ map (fun q => SearchCall q "track" 10 "US") (pre ++ [query]))
  /\ get_track_preview env track_name artist_name log
     = (Ok (None, Some (not_found_msg track_name artist_name)),
        log ++ map (fun q => SearchCall q "track" 10 "US") (pre ++ [query])).
Proof.
  intros Hc Hqs Hpre Hq.
  assert (Hs : search_track_with_preview sp track_name artist_name log
               = (Ok None, log ++ map tier_call (pre ++ [query])))
    by now apply (search_with_preview_raise sp track_name artist_name pre post query e).
  split; [exact Hs|]. now apply (get_track_preview_absent env _ _ sp).
Qed.

Lemma failed_tier_ends_search_witness :
  search_track_with_preview Demo.sp_first_raises Demo.title Demo.artist []
    = (Ok None, [SearchCall Demo.tier_a "track" 10 "US"])
  /\ get_track_preview (Demo.env_of Demo.sp_first_raises) Demo.title Demo.artist []
     = (Ok (None, Some (not_found_msg Demo.title Demo.artist)),
        [SearchCall Demo.tier_a "track" 10 "US"]).
Proof.
  apply (failed_tier_ends_search (Demo.env_of Demo.sp_first_raises)
           Demo.sp_first_raises Demo.title Demo.artist
           [] [Demo.tier_b; Demo.tier_c] Demo.tier_a (Exception "timeout") []).
  - reflexivity.
  - reflexivity.
  - constructor.
  - reflexivity.
Defined.



(** C10: when the service answers with a usable record that lacks one of
    the proportion fields, the returned dict holds 0 for that field, not
    the value the default bundle has for it. *)
Theorem missing_proportion_is_zero (sp : Spotify) (track_id : pyval)
    (audio_data : gmap string pyval) (rest : list (option (gmap string pyval)))
    (log : list Call) (k : string) :
  sp_audio_features sp track_id = Ok (Some (Some audio_data :: rest)) ->
  audio_data <> ∅ ->
  numeric_proportions audio_data = true ->
  k ∈ proportion_fields ->
  audio_data !! k = None ->
  exists fs,
    fst (get_audio_features sp track_id log) = Ok fs
    /\ fs !! k = Some (VNum 0)
    /\ fs !! k <> default_audio_features !! k.
Proof.
  intros Hresp Hne Hnum Hk Hv. eexists. split; [|split].
  - rewrite get_audio_features_run. unfold fetched_features.
    rewrite Hresp, (usable_features_first audio_data rest Hne).
    rewrite (scaled_features_numeric audio_data Hnum). reflexivity.
  - unfold proportion_fields in Hk.
    each_field Hk; unfold proportion; rewrite Hv; reflexivity.
  - unfold proportion_fields in Hk.
    each_field Hk; unfold proportion; rewrite Hv; discriminate.
Qed.

Lemma missing_proportion_is_zero_witness :
  exists fs,
    fst (get_audio_features Demo.sp_second_tier (VStr "7coverOfYesterday") []) = Ok fs
    /\ fs !! "valence" = Some (VNum 0)
    /\ fs !! "valence" <> default_audio_features !! "valence".
Proof.
  apply (missing_proportion_is_zero Demo.sp_second_tier (VStr "7coverOfYesterday")
           Demo.some_features [] [] "valence").
  - reflexivity.
  - intros H. apply (f_equal (fun d => d !! "tempo")) in H. discriminate.
  - reflexivity.
  - unfold proportion_fields. repeat constructor.
  - reflexivity.
Defined.



(** C7: when the client is there and all three queries return empty
    result sets, resolution returns no record together with the not-found
    reason, whose text contains the requested title and the requested
    artist. *)
Theorem all_tiers_empty_not_found (env : Env) (sp : Spotify)
    (track_name artist_name : string) (log : list Call) :
  connect env = Ok sp ->
  Forall (fun q => sp_search sp q "track" 10 "US" = Ok [])
         (search_queries track_name artist_name) ->
  exists reason,
    fst (get_track_preview env track_name artist_name log) = Ok (None, Some reason)
    /\ reason = "Track '" +:+ track_name +:+ "' by '" +:+ artist_name
                  +:+ "' not found on Spotify."
    /\ contains reason track_name
    /\ contains reason artist_name.
Proof.
  intros Hc Hall. exists (not_found_msg track_name artist_name).
  split; [|split; [reflexivity|split]].
  - erewrite (get_track_preview_absent env _ _ sp log) by
      (try exact Hc; now apply search_with_preview_empty).
    reflexivity.
  - now exists "Track '", ("' by '" +:+ artist_name +:+ "' not found on Spotify.").
  - exists ("Track '" +:+ track_name +:+ "' by '"), "' not found on Spotify.".
    unfold not_found_msg. now rewrite !append_assoc.
Qed.

Lemma all_tiers_empty_not_found_witness :
  exists reason,
    fst (get_track_preview (Demo.env_of Demo.sp_silent) Demo.title Demo.artist [])
      = Ok (None, Some reason)
    /\ reason = "Track '" +:+ Demo.title +:+ "' by '" +:+ Demo.artist
                  +:+ "' not found on Spotify."
    /\ contains reason Demo.title
    /\ contains reason Demo.artist.
Proof.
  apply (all_tiers_empty_not_found (Demo.env_of Demo.sp_silent) Demo.sp_silent
           Demo.title Demo.artist []).
  - reflexivity.
  - repeat constructor.
Defined.

(** A preview URL counts as absent when the field is null or empty: this
    is what the condition [not track_info['preview_url']] tests. *)
Lemma has_preview_false (track : RawTrack) :
  has_preview track = false
  <-> tr_preview_url track = None \/ tr_preview_url track = Some EmptyString.
Proof.
  unfold has_preview. destruct (tr_preview_url track) as [url|]; simpl.
  - rewrite negb_false_iff, bool_decide_eq_true. split.
    + intros ->. now right.
    + intros [H|H]; congruence.
  - split; auto.
Qed.

(** What a successful resolution returns: the record assembled from the
    candidate selected in the answer to one of the queries. *)
Lemma get_track_preview_success (env : Env) (track_name artist_name : string)
    (log : list Call) (record : gmap string pyval) (message : option string) :
  fst (get_track_preview env track_name artist_name log) = Ok (Some record, message) ->
  exists sp query items track track_info,
    connect env = Ok sp
    /\ answer sp query = Ok items
    /\ Selected track_name artist_name items track
    /\ create_track_info track = Ok track_info
    /\ record = assemble track_name artist_name track_info
                  (fetched_features sp (VStr (tr_id track)))
    /\ message = advisory track.
Proof.
  intros Hrun.
  destruct (get_track_preview_cases env track_name artist_name log)
    as [H | [H | (sp & query & items & track & track_info & Hc & Hq & Hsel & Hinfo & H)]];
    rewrite H in Hrun; try discriminate.
  injection Hrun as <- <-. exists sp, query, items, track, track_info.
  repeat (split; [assumption || reflexivity|]). reflexivity.
Qed.

(** C8: a successful resolution returns the record of the selected
    candidate with the advisory message exactly when that candidate has no
    preview URL (the field is null or empty), and with no message exactly
    when it has one. *)
Theorem advisory_iff_no_preview (env : Env) (track_name artist_name : string)
    (log : list Call) (record : gmap string pyval) (message : option string) :
  fst (get_track_preview env track_name artist_name log) = Ok (Some record, message) ->
  exists sp query items track,
    connect env = Ok sp
    /\ sp_search sp query "track" 10 "US" = Ok items
    /\ Selected track_name artist_name items track
    /\ record !! "id" = Some (VStr (tr_id track))
    /\ record !! "preview_url" = Some (of_opt_str (tr_preview_url track))
    /\ (message
          = Some "Spotify preview not available. Alternative listening options provided below."
        <-> tr_preview_url track = None \/ tr_preview_url track = Some EmptyString)
    /\ (message = None
        <-> exists url, tr_preview_url track = Some url /\ url <> EmptyString).
Proof.
  intros (sp & query & items & track & track_info & Hc & Hq & Hsel & Hinfo & -> & ->)
    %get_track_preview_success.
  exists sp, query, items, track. repeat (split; [assumption|]).
  unfold assemble. rewrite !lookup_insert_ne by discriminate.
  split; [now apply create_track_info_id|].
  split; [now apply create_track_info_preview|].
  rewrite <- has_preview_false. unfold advisory.
  destruct (has_preview track) eqn:Hp.
  - split; [split; discriminate|]. split; [intros _ | reflexivity].
    destruct (tr_preview_url track) as [url|] eqn:Hurl.
    + exists url. split; [reflexivity|]. intros ->.
      assert (has_preview track = false) by (apply has_preview_false; auto).
      congruence.
    + assert (has_preview track = false) by (apply has_preview_false; auto).
      congruence.
  - split; [split; reflexivity|]. split; [discriminate|].
    intros (url & Hurl & Hne). apply has_preview_false in Hp as [H|H]; congruence.
Qed.

Lemma advisory_iff_no_preview_witness :
  exists record message,
    fst (get_track_preview (Demo.env_of Demo.sp_second_tier)
           Demo.title Demo.artist [])
      = Ok (Some record, message)
    /\ exists sp query items track,
        connect (Demo.env_of Demo.sp_second_tier) = Ok sp
        /\ sp_search sp query "track" 10 "US" = Ok items
        /\ Selected Demo.title Demo.artist items track
        /\ record !! "id" = Some (VStr (tr_id track))
        /\ record !! "preview_url" = Some (of_opt_str (tr_preview_url track))
        /\ (message
              = Some "Spotify preview not available. Alternative listening options provided below."
            <-> tr_preview_url track = None \/ tr_preview_url track = Some EmptyString)
        /\ (message = None
            <-> exists url, tr_preview_url track = Some url /\ url <> EmptyString).
Proof.
  eexists _, _. split; [reflexivity|].
  apply (advisory_iff_no_preview (Demo.env_of Demo.sp_second_tier)
           Demo.title Demo.artist []).
  reflexivity.
Defined.



(** The links of the example of the specification. *)
Example yesterday_links :
  get_alternative_preview_url "Yesterday" "The Beatles"
  = list_to_map
      [ ("youtube_search",
         VStr "https://www.youtube.com/results?search_query=Yesterday%20The%20Beatles%20audio");
        ("youtube_music",
         VStr "https://music.youtube.com/search?q=Yesterday%20The%20Beatles");
        ("soundcloud",
         VStr "https://soundcloud.com/search?q=Yesterday%20The%20Beatles") ].
Proof. reflexivity. Qed.

(** * Further properties of music.py *)

(** ** Percent-encoding *)

Section Quote.

Lemma append_String (c : ascii) (a b : string) :
  String c a +:+ b = String c (a +:+ b).
Proof. reflexivity. Qed.

Lemma append_nil_l (a : string) : EmptyString +:+ a = a.
Proof. reflexivity. Qed.

Lemma all_chars_append (test : ascii -> bool) (a b : string) :
  all_chars test (a +:+ b) = all_chars test a && all_chars test b.
Proof.
  induction a as [|c a IH]; [reflexivity|].
  rewrite append_String. simpl. now rewrite IH, andb_assoc.
Qed.

Lemma quote_append (a b : string) : quote (a +:+ b) = quote a +:+ quote b.
Proof.
  induction a as [|c a IH]; [reflexivity|].
  rewrite append_String. simpl. now rewrite IH, append_assoc.
Qed.

(** A hexadecimal digit is a character [quote] leaves alone. *)
Lemma hex_digit_safe (n : nat) : (n < 16)%nat -> is_safe (hex_digit n) = true.
Proof.
  intros Hn. do 16 (destruct n as [|n]; [reflexivity|]). lia.
Qed.

Lemma hex_digit_inj (n m : nat) :
  (n < 16)%nat -> (m < 16)%nat -> hex_digit n = hex_digit m -> n = m.
Proof.
  intros Hn Hm.
  do 16 (destruct n as [|n];
         [do 16 (destruct m as [|m]; [reflexivity || discriminate|]); lia|]).
  lia.
Qed.

Lemma nat_of_ascii_bound (c : ascii) : (nat_of_ascii c < 256)%nat.
Proof. destruct c as [[] [] [] [] [] [] [] []]; vm_compute; lia. Qed.

Lemma quote_char_url (c : ascii) : all_chars url_char (quote_char c) = true.
Proof.
  unfold quote_char. destruct (is_safe c) eqn:Hc.
  - simpl. unfold url_char. now rewrite Hc.
  - pose proof (nat_of_ascii_bound c) as Hb.
    cbn [all_chars]. unfold url_char at 1 2 3.
    rewrite !hex_digit_safe; [reflexivity | |].
    + apply Nat.mod_upper_bound. lia.
    + apply Nat.Div0.div_lt_upper_bound. lia.
Qed.

Lemma quote_url (s : string) : all_chars url_char (quote s) = true.
Proof.
  induction s as [|c s IH]; [reflexivity|].
  simpl. now rewrite all_chars_append, quote_char_url, IH.
Qed.

Lemma quote_char_inj (c1 c2 : ascii) (s1 s2 : string) :
  quote_char c1 +:+ s1 = quote_char c2 +:+ s2 -> c1 = c2 /\ s1 = s2.
Proof.
  unfold quote_char.
  destruct (is_safe c1) eqn:H1, (is_safe c2) eqn:H2;
    rewrite ?append_String, ?append_nil_l; intros H.
  - injection H as -> ->. auto.
  - injection H as -> _. vm_compute in H1. discriminate.
  - injection H as <- _. vm_compute in H2. discriminate.
  - injection H as Hhi Hlo ->. split; [|reflexivity].
    pose proof (nat_of_ascii_bound c1) as Hb1.
    pose proof (nat_of_ascii_bound c2) as Hb2.
    assert (Hd : (nat_of_ascii c1 / 16 = nat_of_ascii c2 / 16)%nat).
    { apply hex_digit_inj; [| |assumption];
        apply Nat.Div0.div_lt_upper_bound; lia. }
    assert (Hm : (nat_of_ascii c1 mod 16 = nat_of_ascii c2 mod 16)%nat).
    { apply hex_digit_inj; [| |assumption]; apply Nat.mod_upper_bound; lia. }
    rewrite <- (ascii_nat_embedding c1), <- (ascii_nat_embedding c2).
    f_equal.
    rewrite (Nat.div_mod_eq (nat_of_ascii c1) 16),
      (Nat.div_mod_eq (nat_of_ascii c2) 16).
    now rewrite Hd, Hm.
Qed.

Lemma quote_char_nonempty (c : ascii) (s : string) :
  quote_char c +:+ s <> EmptyString.
Proof. unfold quote_char. now destruct (is_safe c). Qed.

Lemma quote_inj (s1 s2 : string) : quote s1 = quote s2 -> s1 = s2.
Proof.
  revert s2. induction s1 as [|c1 s1 IH]; intros [|c2 s2]; simpl; intros H.
  - reflexivity.
  - symmetry in H. now apply quote_char_nonempty in H.
  - now apply quote_char_nonempty in H.
  - apply quote_char_inj in H as [-> H]. now rewrite (IH s2 H).
Qed.

End Quote.

(** ** Shapes of the dicts *)

Section Shapes.

Lemma scaled_features_dom (audio_data fs : gmap string pyval) :
  scaled_features audio_data = Ok fs -> dom fs = feature_keys.
Proof.
  unfold scaled_features, mbind, result_bind, mret, result_ret.
  do 7 (destruct (py_mul _ _) as [?|?]; [|discriminate]).
  intros [= <-]. reflexivity.
Qed.

Lemma fetched_features_dom (sp : Spotify) (track_id : pyval) :
  dom (fetched_features sp track_id) = feature_keys.
Proof.
  unfold fetched_features.
  destruct (sp_audio_features sp track_id) as [features|e]; [|reflexivity].
  destruct (usable_features features) as [audio_data|]; [|reflexivity].
  destruct (scaled_features audio_data) as [fs|e] eqn:Hs; [|reflexivity].
  exact (scaled_features_dom audio_data fs Hs).
Qed.

Lemma create_track_info_dom (track : RawTrack) (track_info : gmap string pyval) :
  create_track_info track = Ok track_info -> dom track_info = track_info_keys.
Proof.
  intros (artist0 & album_image & _ & ->)%create_track_info_inv.
  rewrite dom_list_to_map_L. reflexivity.
Qed.

Lemma take_le_length {A} (n : nat) (l : list A) :
  exists m, (m <= length l)%nat /\ take n l = take m l.
Proof.
  destruct (decide (n <= length l)%nat) as [Hle|Hgt].
  - now exists n.
  - exists (length l). split; [lia|]. rewrite !take_ge by lia. reflexivity.
Qed.

End Shapes.

(** X1: a resolution makes its remote calls in a fixed pattern: search
    calls for a prefix of the three queries, at most three of them, and
    then one feature call for the identifier of the record when a record
    is returned, none otherwise. When the client cannot be built no call
    is made at all. *)
Theorem resolution_call_pattern (env : Env) (track_name artist_name : string)
    (log : list Call) :
  exists n tail,
    snd (get_track_preview env track_name artist_name log)
      = log ++ map (fun q => SearchCall q "track" 10 "US")
                   (take n (search_queries track_name artist_name)) ++ tail
    /\ (n <= 3)%nat
    /\ match connect env, fst (get_track_preview env track_name artist_name log) with
       | Raise _, _ => n = 0%nat /\ tail = []
       | Ok _, Ok (Some record, _) =>
           exists track_id,
             record !! "id" = Some track_id /\ tail = [AudioFeaturesCall track_id]
       | Ok _, _ => tail = []
       end.
Proof.
  destruct (connect env) as [sp|e] eqn:Hc.
  - destruct (search_with_preview_total sp track_name artist_name log)
      as (found & log' & Hs & Hfrom).
    destruct (search_with_preview_log sp track_name artist_name log) as [n0 Hlog].
    rewrite Hs in Hlog. simpl in Hlog.
    destruct (take_le_length n0 (search_queries track_name artist_name))
      as (n & Hn & Htake).
    rewrite Htake in Hlog.
    change tier_call with (fun q => SearchCall q "track" 10 "US") in Hlog.
    destruct found as [track_info|].
    + destruct (Hfrom track_info eq_refl) as (query & items & track & _ & _ & _ & Hinfo).
      rewrite (get_track_preview_found env _ _ sp log log' track track_info)
        by assumption.
      exists n, [AudioFeaturesCall (VStr (tr_id track))]. simpl.
      rewrite Hlog, <- app_assoc. split; [reflexivity|]. split; [exact Hn|].
      exists (VStr (tr_id track)). split; [|reflexivity].
      unfold assemble. rewrite !lookup_insert_ne by discriminate.
      now apply create_track_info_id.
    + rewrite (get_track_preview_absent env _ _ sp log log') by assumption.
      exists n, []. simpl. rewrite Hlog, app_nil_r. auto.
  - rewrite (get_track_preview_no_client env _ _ e) by assumption.
    exists 0%nat, []. simpl. rewrite app_nil_r.
    split; [reflexivity|]. split; [lia|auto].
Qed.


(** X3: the record of a successful resolution has exactly thirteen keys,
    the eleven of the selected candidate's track info and the two
    attachments, and storing the attachments changes none of the eleven
    fields. *)
Theorem record_keeps_candidate_fields (env : Env) (track_name artist_name : string)
    (log : list Call) (record : gmap string pyval) (message : option string) :
  fst (get_track_preview env track_name artist_name log) = Ok (Some record, message) ->
  exists track track_info,
    create_track_info track = Ok track_info
    /\ dom record = track_info_keys ∪ {["audio_features"; "alternatives"]}
    /\ (forall k, k ∈ track_info_keys -> record !! k = track_info !! k)
    /\ size record = 13%nat.
Proof.
  intros (sp & query & items & track & track_info & Hc & Hq & Hsel & Hinfo & -> & ->)
    %get_track_preview_success.
  exists track, track_info. split; [exact Hinfo|].
  assert (Hdom : dom (assemble track_name artist_name track_info
                        (fetched_features sp (VStr (tr_id track))))
                 = track_info_keys ∪ {["audio_features"; "alternatives"]}).
  { unfold assemble. rewrite !dom_insert_L, (create_track_info_dom track track_info Hinfo).
    reflexivity. }
  split; [exact Hdom|]. split.
  - intros k Hk. unfold assemble.
    rewrite !lookup_insert_ne; [reflexivity | |];
      intros <-; unfold track_info_keys in Hk;
      apply elem_of_list_to_set in Hk; each_field Hk.
  - rewrite <- size_dom, Hdom. reflexivity.
Qed.

Lemma record_keeps_candidate_fields_witness :
  exists record message,
    fst (get_track_preview (Demo.env_of Demo.sp_second_tier)
           Demo.title Demo.artist [])
      = Ok (Some record, message)
    /\ exists track track_info,
        create_track_info track = Ok track_info
        /\ dom record = track_info_keys ∪ {["audio_features"; "alternatives"]}
        /\ (forall k, k ∈ track_info_keys -> record !! k = track_info !! k)
        /\ size record = 13%nat.
Proof.
  eexists _, _. split; [reflexivity|].
  eapply (record_keeps_candidate_fields (Demo.env_of Demo.sp_second_tier)
            Demo.title Demo.artist []).
  reflexivity.
Defined.

(** X4: whatever the service answers, [get_audio_features] returns, never
    raises, makes exactly one remote call, and its dict has exactly the
    twelve feature keys. *)
Theorem audio_features_shape (sp : Spotify) (track_id : pyval) (log : list Call) :
  exists fs,
    get_audio_features sp track_id log
      = (Ok fs, log ++ [AudioFeaturesCall track_id])
    /\ dom fs = feature_keys
    /\ size fs = 12%nat.
Proof.
  exists (fetched_features sp track_id).
  split; [apply get_audio_features_run|].
  split; [apply fetched_features_dom|].
  rewrite <- size_dom, fetched_features_dom. reflexivity.
Qed.

Lemma scaled_features_null (audio_data : gmap string pyval) (k : string) :
  k ∈ proportion_fields -> audio_data !! k = Some VNone ->
  exists e, scaled_features audio_data = Raise e.
Proof.
  intros Hk Hv. unfold scaled_features, mbind, result_bind, dict_get.
  unfold proportion_fields in Hk.
  each_field Hk; rewrite Hv; simpl;
    repeat (destruct (py_mul _ _) as [?|?]; [|eauto]); eauto.
Qed.

(** X5: one null proportion spoils the whole record: when the first
    entry of the answer holds [None] for a proportion field, the product
    raises and [get_audio_features] returns the default bundle, so every
    other value the service sent is dropped. *)
Theorem null_proportion_gives_defaults (sp : Spotify) (track_id : pyval)
    (audio_data : gmap string pyval) (rest : list (option (gmap string pyval)))
    (k : string) (log : list Call) :
  sp_audio_features sp track_id = Ok (Some (Some audio_data :: rest)) ->
  k ∈ proportion_fields ->
  audio_data !! k = Some VNone ->
  get_audio_features sp track_id log
  = (Ok default_audio_features, log ++ [AudioFeaturesCall track_id]).
Proof.
  intros Hresp Hk Hv. apply nothing_usable_default. rewrite Hresp.
  destruct (scaled_features_null audio_data k Hk Hv) as [e He].
  do 5 right. eauto.
Qed.

Lemma null_proportion_gives_defaults_witness :
  get_audio_features Sample.sp_original (VStr "3BQHpFgAp4l80e1XslIjNI") []
  = (Ok default_audio_features,
     [AudioFeaturesCall (VStr "3BQHpFgAp4l80e1XslIjNI")]).
Proof.
  apply (null_proportion_gives_defaults Sample.sp_original
           (VStr "3BQHpFgAp4l80e1XslIjNI") Sample.null_features [] "danceability" []).
  - reflexivity.
  - unfold proportion_fields. constructor.
  - reflexivity.
Defined.

(** ** The links and the embed *)

(** X6: the three links share one payload, the percent-encoding of
    title, a space and artist; the video-search link appends the encoding
    of [" audio"] to it. The payload consists of characters that need no
    escaping in a URL (letters, digits, [_.-~/]) and of percent signs
    that begin escapes, so the input text cannot add a parameter to the
    query or end the URL early. *)
Theorem links_share_safe_payload (track_name artist_name : string) :
  let payload := quote (track_name +:+ " " +:+ artist_name) in
  all_chars url_char payload = true
  /\ get_alternative_preview_url track_name artist_name
     = list_to_map
         [ ("youtube_search",
            VStr ("https://www.youtube.com/results?search_query="
                  +:+ payload +:+ "%20audio"));
           ("youtube_music", VStr ("https://music.youtube.com/search?q=" +:+ payload));
           ("soundcloud", VStr ("https://soundcloud.com/search?q=" +:+ payload)) ]
  /\ dom (get_alternative_preview_url track_name artist_name) = link_keys.
Proof.
  intros payload. split; [apply quote_url|]. split; [|reflexivity].
  unfold get_alternative_preview_url, payload.
  replace (track_name +:+ " " +:+ artist_name +:+ " audio")
    with ((track_name +:+ " " +:+ artist_name) +:+ " audio")
    by now rewrite !append_assoc.
  rewrite quote_append. reflexivity.
Qed.

(** X7: the links depend on the input exactly through the text title,
    space, artist: two inputs get the same links if and only if these
    texts are equal. *)
Theorem links_determined_by_joined_text (track_name artist_name : string)
    (track_name' artist_name' : string) :
  get_alternative_preview_url track_name artist_name
    = get_alternative_preview_url track_name' artist_name'
  <-> track_name +:+ " " +:+ artist_name = track_name' +:+ " " +:+ artist_name'.
Proof.
  split.
  - intros H.
    assert (Hlink : forall t a,
              get_alternative_preview_url t a !! "soundcloud"
              = Some (VStr ("https://soundcloud.com/search?q=" +:+ quote (t +:+ " " +:+ a))))
      by reflexivity.
    pose proof (Hlink track_name artist_name) as H1.
    rewrite H, Hlink in H1.
    assert (Heq : "https://soundcloud.com/search?q="
                    +:+ quote (track_name' +:+ " " +:+ artist_name')
                  = "https://soundcloud.com/search?q="
                    +:+ quote (track_name +:+ " " +:+ artist_name))
      by congruence.
    apply String.app_inj in Heq. symmetry. now apply quote_inj.
  - intros H. unfold get_alternative_preview_url.
    replace (track_name +:+ " " +:+ artist_name +:+ " audio")
      with ((track_name +:+ " " +:+ artist_name) +:+ " audio")
      by now rewrite !append_assoc.
    replace (track_name' +:+ " " +:+ artist_name' +:+ " audio")
      with ((track_name' +:+ " " +:+ artist_name') +:+ " audio")
      by now rewrite !append_assoc.
    now rewrite H.
Qed.

Lemma length_append (a b : string) :
  String.length (a +:+ b) = (String.length a + String.length b)%nat.
Proof.
  induction a as [|c a IH]; [reflexivity|].
  rewrite append_String. simpl. now rewrite IH.
Qed.

Lemma append_inj_r (a b c : string) : a +:+ c = b +:+ c -> a = b.
Proof.
  revert b. induction a as [|x a IH]; intros [|y b] H.
  - reflexivity.
  - apply (f_equal String.length) in H. rewrite !length_append in H.
    simpl in H. lia.
  - apply (f_equal String.length) in H. rewrite !length_append in H.
    simpl in H. lia.
  - rewrite !append_String in H. injection H as -> H. now rewrite (IH b H).
Qed.

(** X8: the embed markup holds the [src] attribute of the player of the
    given identifier, which is put in without any escaping, and different
    identifiers give different markup. *)
Theorem embed_names_track (track_id : string) :
  contains (create_spotify_embed track_id)
    ("<iframe src=" +:+ dquote +:+ "https://open.spotify.com/embed/track/"
     +:+ track_id +:+ dquote)
  /\ forall track_id',
       create_spotify_embed track_id = create_spotify_embed track_id' ->
       track_id = track_id'.
Proof.
  split.
  - unfold contains, create_spotify_embed.
    eexists (newline +:+ "    "), _. rewrite !append_assoc. reflexivity.
  - intros track_id' H. unfold create_spotify_embed in H.
    rewrite <- !append_assoc in H.
    repeat apply append_inj_r in H.
    now apply (inj (String.app _)) in H.
Qed.

(** ** More on the search *)

Lemma selected_in (track_name artist_name : string) (items : list RawTrack)
    (c : RawTrack) :
  Selected track_name artist_name items c -> c ∈ items.
Proof.
  intros [before c' after -> _ _ | before c' after _ -> _ _ | c' rest _ _ ->];
    set_solver.
Qed.



(** X9: when the candidate selected in the first non-empty result set
    lists no artist, building its record raises, the search swallows the
    exception, and resolution reports the track as not found: no other
    candidate of the result set and no later tier is tried. *)
Theorem artistless_choice_not_found (env : Env) (sp : Spotify)
    (track_name artist_name : string) (pre post : list string) (query : string)
    (items : list RawTrack) (c : RawTrack) (log : list Call) :
  connect env = Ok sp ->
  search_queries track_name artist_name = pre ++ query :: post ->
  Forall (fun q => sp_search sp q "track" 10 "US" = Ok []) pre ->
  sp_search sp query "track" 10 "US" = Ok items ->
  Selected track_name artist_name items c ->
  tr_artists c = [] ->
  get_track_preview env track_name artist_name log
  = (Ok (None, Some (not_found_msg track_name artist_name)),
     log ++ map (fun q => SearchCall q "track" 10 "US") (pre ++ [query])).
Proof.
  intros Hc Hqs Hpre Hq Hsel Hart.
  apply (get_track_preview_absent env _ _ sp). { exact Hc. }
  assert (Hne : items <> []).
  { apply selected_in in Hsel. intros ->. now apply elem_of_nil in Hsel. }
  rewrite (search_with_preview_hit sp track_name artist_name pre post query items)
    by assumption.
  apply Selected_iff in Hsel. rewrite (pick_track_chosen _ _ _ _ Hsel).
  unfold create_track_info. rewrite Hart. reflexivity.
Qed.

Lemma artistless_choice_not_found_witness :
  get_track_preview (Demo.env_of Sample.sp_anonymous) Demo.title Demo.artist []
  = (Ok (None, Some (not_found_msg Demo.title Demo.artist)),
     [SearchCall Demo.tier_a "track" 10 "US"]).
Proof.
  apply (artistless_choice_not_found (Demo.env_of Sample.sp_anonymous)
           Sample.sp_anonymous Demo.title Demo.artist
           [] [Demo.tier_b; Demo.tier_c] Demo.tier_a
           [Sample.anonymous] Sample.anonymous []).
  - reflexivity.
  - reflexivity.
  - constructor.
  - reflexivity.
  - now apply Selected_iff.
  - reflexivity.
Defined.



(** * Properties of app.py *)

(** ** The option lists of the two select boxes *)

Section Options.

Import App.

Lemma elem_of_unique (l : list string) (x : string) : x ∈ unique l <-> x ∈ l.
Proof.
  induction l as [|y l IH]; simpl; [reflexivity|].
  rewrite !elem_of_cons, list_elem_of_filter, IH. split.
  - intros [->|[_ H]]; auto.
  - intros [->|H]; [now left|].
    destruct (decide (x = y)) as [->|Hne]; [now left | right; auto].
Qed.

Lemma NoDup_unique (l : list string) : NoDup (unique l).
Proof.
  induction l as [|y l IH]; simpl; constructor.
  - rewrite list_elem_of_filter. intros [H _]. now apply H.
  - now apply NoDup_filter.
Qed.

Lemma length_unique (l : list string) : (length (unique l) <= length l)%nat.
Proof.
  induction l as [|y l IH]; simpl; [lia|].
  pose proof (length_filter (fun z => z ≠ y) (unique l)). lia.
Qed.

Lemma elem_of_sorted (l : list string) (x : string) : x ∈ sorted l <-> x ∈ l.
Proof. unfold sorted. now rewrite merge_sort_Permutation. Qed.

Lemma NoDup_sorted (l : list string) : NoDup l -> NoDup (sorted l).
Proof. unfold sorted. now rewrite merge_sort_Permutation. Qed.

Lemma length_sorted (l : list string) : length (sorted l) = length l.
Proof. unfold sorted. now rewrite merge_sort_Permutation. Qed.

Lemma sorted_ascending (l : list string) : StronglySorted String.le (sorted l).
Proof. apply StronglySorted_merge_sort; apply _. Qed.

Lemma elem_of_artist_options (df : list Row) (a : string) :
  a ∈ artist_options df <-> exists r, r ∈ df /\ row_artist r = a.
Proof.
  unfold artist_options.
  rewrite elem_of_sorted, elem_of_unique, list_elem_of_In, in_map_iff.
  split; intros (r & H1 & H2); exists r; rewrite ?list_elem_of_In in *; auto.
Qed.

Lemma elem_of_song_options (df : list Row) (a s : string) :
  s ∈ song_options df a
  <-> exists r, r ∈ df /\ row_artist r = a /\ row_track_name r = s.
Proof.
  unfold song_options.
  rewrite elem_of_sorted, elem_of_unique, list_elem_of_In, in_map_iff.
  split.
  - intros (r & Hs & [Ha Hr]%list_elem_of_In%list_elem_of_filter).
    exists r. auto.
  - intros (r & Hr & Ha & Hs). exists r. split; [exact Hs|].
    apply list_elem_of_In, list_elem_of_filter. auto.
Qed.

End Options.

(** X11: the artist select box offers exactly the artists that occur in
    the dataset, each once, in ascending order. *)
Theorem artist_options_spec (df : list App.Row) :
  (forall a, a ∈ App.artist_options df
             <-> exists r, r ∈ df /\ App.row_artist r = a)
  /\ NoDup (App.artist_options df)
  /\ StronglySorted String.le (App.artist_options df).
Proof.
  split; [apply elem_of_artist_options|]. split.
  - apply NoDup_sorted, NoDup_unique.
  - apply sorted_ascending.
Qed.

(** X12: for any selected artist, the song select box offers exactly the
    track names of the rows of that artist, each once, in ascending
    order; for an artist that is not in the dataset it offers nothing. *)
Theorem song_options_spec (df : list App.Row) (selected_artist : string) :
  (forall s, s ∈ App.song_options df selected_artist
             <-> exists r, r ∈ df /\ App.row_artist r = selected_artist
                           /\ App.row_track_name r = s)
  /\ NoDup (App.song_options df selected_artist)
  /\ StronglySorted String.le (App.song_options df selected_artist)
  /\ ((forall r, r ∈ df -> App.row_artist r <> selected_artist) ->
      App.song_options df selected_artist = []).
Proof.
  split; [apply elem_of_song_options|]. split; [|split].
  - apply NoDup_sorted, NoDup_unique.
  - apply sorted_ascending.
  - intros Hnone.
    destruct (App.song_options df selected_artist) as [|s l] eqn:Hs; [reflexivity|].
    assert (Hin : s ∈ App.song_options df selected_artist)
      by (rewrite Hs; constructor).
    apply elem_of_song_options in Hin as (r & Hr & Ha & _).
    now destruct (Hnone r Hr).
Qed.

(** X13: every artist offered has at least one song to choose, and any
    song chosen for an offered artist forms, with that artist, a row of
    the dataset: the pair handed to the resolver is never made up. *)
Theorem offered_pair_is_a_row (df : list App.Row) (selected_artist : string) :
  selected_artist ∈ App.artist_options df ->
  App.song_options df selected_artist <> []
  /\ forall selected_song,
       selected_song ∈ App.song_options df selected_artist ->
       {| App.row_artist := selected_artist; App.row_track_name := selected_song |}
         ∈ df.
Proof.
  intros (r & Hr & Ha)%elem_of_artist_options. split.
  - intros Hnil.
    assert (Hin : App.row_track_name r ∈ App.song_options df selected_artist)
      by (apply elem_of_song_options; eauto).
    rewrite Hnil in Hin. now apply elem_of_nil in Hin.
  - intros s (r' & Hr' & Ha' & Hs')%elem_of_song_options.
    destruct r' as [a' s']. simpl in *. now subst.
Qed.

Lemma offered_pair_is_a_row_witness :
  App.song_options Sample.songs "The Beatles" <> []
  /\ forall selected_song,
       selected_song ∈ App.song_options Sample.songs "The Beatles" ->
       {| App.row_artist := "The Beatles"; App.row_track_name := selected_song |}
         ∈ Sample.songs.
Proof.
  apply (offered_pair_is_a_row Sample.songs "The Beatles").
  vm_compute. repeat constructor.
Defined.

(** X14: the number on the Unique Artists card is the number of options
    of the artist select box; it is at most the number on the Total
    Tracks card, and it is zero only for an empty dataset. *)
Theorem unique_artists_count (df : list App.Row) :
  App.unique_artists df = length (App.artist_options df)
  /\ (App.unique_artists df <= App.total_tracks df)%nat
  /\ (App.unique_artists df = 0%nat <-> df = []).
Proof.
  unfold App.unique_artists, App.artist_options, App.total_tracks.
  split; [now rewrite length_sorted|]. split.
  - pose proof (length_unique (map App.row_artist df)) as H.
    now rewrite length_map in H.
  - destruct df as [|r df]; simpl; split; try reflexivity; discriminate.
Qed.

(** ** The Analyze button *)

Section Analyze.

Variable env : Env.
Variables selected_song selected_artist : string.

Lemma not_found_msg_truthy (track_name artist_name : string) :
  App.message_truthy (Some (not_found_msg track_name artist_name)) = true.
Proof.
  unfold App.message_truthy, not_found_msg.
  apply negb_true_iff, bool_decide_eq_false. discriminate.
Qed.

Lemma fixed_msgs_truthy :
  App.message_truthy (Some client_failed_msg) = true
  /\ App.message_truthy (Some no_preview_msg) = true.
Proof. split; reflexivity. Qed.

Lemma assemble_truthy (track_name artist_name : string)
    (track_info fs : gmap string pyval) :
  dict_truthy (assemble track_name artist_name track_info fs) = true.
Proof.
  apply (lookup_dict_truthy _ "alternatives"
           (VDict (get_alternative_preview_url track_name artist_name))).
  apply lookup_insert_eq.
Qed.

Lemma analyze_track_run (log : list Call) :
  App.analyze_track env selected_song selected_artist log
  = (match fst (get_track_preview env selected_song selected_artist log) with
     | Ok (track_data, error) =>
         Ok (if App.data_truthy track_data
             then (track_data,
                   if App.message_truthy error
                   then App.Warning ("⚠️ " +:+ default EmptyString error)
                   else App.Success "✅ Track data loaded successfully!")
             else (None,
                   App.Error ("❌ " +:+ (if App.message_truthy error
                                         then default EmptyString error
                                         else "Unable to fetch track data"))))
     | Raise e => Raise e
     end,
     snd (get_track_preview env selected_song selected_artist log)).
Proof.
  unfold App.analyze_track, mbind, eff_bind.
  destruct (get_track_preview env selected_song selected_artist log)
    as [[[track_data error]|e] log']; simpl; [|reflexivity].
  destruct (App.data_truthy track_data); [|reflexivity].
  now destruct (App.message_truthy error).
Qed.

End Analyze.

(** X15: pressing Analyze never raises and shows one of three messages:
    the success message when a record with a preview came back, the
    warning carrying the resolver's advisory when the record has no
    preview, and otherwise an error carrying the resolver's reason; the
    record (or nothing) becomes the selected track. The fallback text
    for a missing reason is never shown. *)
Theorem analyze_track_outcomes (env : Env) (selected_song selected_artist : string)
    (log : list Call) :
  exists selected_track notice,
    App.analyze_track env selected_song selected_artist log
      = (Ok (selected_track, notice),
         snd (get_track_preview env selected_song selected_artist log))
    /\ match fst (get_track_preview env selected_song selected_artist log) with
       | Ok (Some record, None) =>
           selected_track = Some record
           /\ notice = App.Success "✅ Track data loaded successfully!"
       | Ok (Some record, Some text) =>
           selected_track = Some record
           /\ notice = App.Warning ("⚠️ " +:+ text)
       | Ok (None, Some reason) =>
           selected_track = None
           /\ notice = App.Error ("❌ " +:+ reason)
           /\ reason <> "Unable to fetch track data"
       | _ => False
       end.
Proof.
  rewrite analyze_track_run.
  destruct (get_track_preview_cases env selected_song selected_artist log)
    as [H | [H | (sp & query & items & track & track_info & _ & _ & _ & _ & H)]];
    rewrite H.
  - cbn [App.data_truthy]. rewrite (proj1 fixed_msgs_truthy).
    eexists _, _. split; [reflexivity|]. repeat split. discriminate.
  - cbn [App.data_truthy]. rewrite not_found_msg_truthy.
    eexists _, _. split; [reflexivity|]. repeat split.
    unfold not_found_msg. discriminate.
  - cbn [App.data_truthy]. rewrite assemble_truthy. unfold advisory.
    destruct (has_preview track).
    + eexists _, _. split; [reflexivity|]. auto.
    + rewrite (proj2 fixed_msgs_truthy).
      eexists _, _. split; [reflexivity|]. auto.
Qed.

(** X16: the page and the message agree: for the track that Analyze
    selects, the Spotify embed is shown in place of the preview player
    (the record has no usable [preview_url]) exactly when the warning was
    shown, and the preview player exactly when the success message was. *)
Theorem embed_shown_iff_warning (env : Env) (selected_song selected_artist : string)
    (log : list Call) (record : gmap string pyval) (notice : App.Notice) :
  fst (App.analyze_track env selected_song selected_artist log)
    = Ok (Some record, notice) ->
  (App.has_preview_player record = false
   <-> notice = App.Warning ("⚠️ " +:+ no_preview_msg))
  /\ (App.has_preview_player record = true
      <-> notice = App.Success "✅ Track data loaded successfully!").
Proof.
  rewrite analyze_track_run. simpl.
  destruct (get_track_preview_cases env selected_song selected_artist log)
    as [H | [H | (sp & query & items & track & track_info & _ & _ & _ & Hinfo & H)]];
    rewrite H.
  - cbn [App.data_truthy]. discriminate.
  - cbn [App.data_truthy]. discriminate.
  - cbn [App.data_truthy]. rewrite assemble_truthy.
    assert (Hp : App.has_preview_player
                   (assemble selected_song selected_artist track_info
                      (fetched_features sp (VStr (tr_id track))))
                 = has_preview track).
    { unfold App.has_preview_player, dict_get, assemble.
      rewrite !lookup_insert_ne by discriminate.
      now rewrite (create_track_info_preview track track_info Hinfo). }
    unfold advisory. destruct (has_preview track) eqn:Hhas.
    + intros [= <- <-]. rewrite Hp. split; split; try reflexivity; discriminate.
    + rewrite (proj2 fixed_msgs_truthy). intros [= <- <-]. rewrite Hp.
      split; split; try reflexivity; discriminate.
Qed.

Lemma embed_shown_iff_warning_witness :
  exists record notice,
    fst (App.analyze_track (Demo.env_of Sample.sp_original)
           Demo.title Demo.artist [])
      = Ok (Some record, notice)
    /\ (App.has_preview_player record = false
        <-> notice = App.Warning ("⚠️ " +:+ no_preview_msg))
    /\ (App.has_preview_player record = true
        <-> notice = App.Success "✅ Track data loaded successfully!").
Proof.
  eexists _, _. split; [reflexivity|].
  apply (embed_shown_iff_warning (Demo.env_of Sample.sp_original)
           Demo.title Demo.artist []).
  reflexivity.
Defined.

(** ** The duration on the track card *)

Lemma fmt_02d_seconds (s : Z) :
  (0 <= s < 60)%Z ->
  App.fmt_02d s = (if (s <? 10)%Z then "0" else EmptyString) +:+ pretty s
  /\ String.length (App.fmt_02d s) = 2%nat.
Proof.
  intros Hs.
  assert (Hn : exists n, s = Z.of_nat n /\ (n < 60)%nat)
    by (exists (Z.to_nat s); lia).
  destruct Hn as (n & -> & Hn).
  do 60 (destruct n as [|n]; [vm_compute; split; reflexivity|]). lia.
Qed.

(** X17: the duration on the track card reads minutes, a colon and
    seconds; the seconds always take two digits and lie between 00 and
    59, and minutes and seconds together are the duration in whole
    seconds, the remaining milliseconds being dropped. *)
Theorem duration_text_shape (duration_ms : Z) :
  let minutes := (duration_ms `div` 60000)%Z in
  let seconds := ((duration_ms `div` 1000) `mod` 60)%Z in
  App.duration_text duration_ms
    = pretty minutes +:+ ":"
      +:+ (if (seconds <? 10)%Z then "0" else EmptyString) +:+ pretty seconds
  /\ String.length (App.fmt_02d seconds) = 2%nat
  /\ (0 <= seconds < 60)%Z
  /\ (60 * minutes + seconds = duration_ms `div` 1000)%Z
  /\ (0 <= duration_ms - 1000 * (60 * minutes + seconds) < 1000)%Z.
Proof.
  intros minutes seconds.
  assert (Hs : (0 <= seconds < 60)%Z) by (apply Z.mod_pos_bound; lia).
  destruct (fmt_02d_seconds seconds Hs) as [Hfmt Hlen].
  split; [unfold App.duration_text; fold minutes seconds; now rewrite Hfmt|].
  split; [exact Hlen|]. split; [exact Hs|].
  unfold minutes, seconds. split; Z.to_euclidean_division_equations; lia.
Qed.

(** ** Matches by name *)



(** X19: empty input matches anything: for an empty title and an empty
    artist the first pass accepts a candidate exactly when it has a
    preview URL and lists at least one artist (a candidate without
    artists is never a match, whatever the input). *)
Theorem empty_input_matches (c : RawTrack) :
  (exact_match EmptyString EmptyString c = true
   <-> has_preview c = true /\ tr_artists c <> [])
  /\ forall track_name artist_name,
       tr_artists c = [] -> exact_match track_name artist_name c = false.
Proof.
  split.
  - unfold exact_match, artist_match, track_match.
    assert (Hin : forall s, str_in (lower EmptyString) s = true)
      by (intros s; apply str_in_spec; now exists EmptyString, s).
    rewrite Hin, andb_true_r.
    destruct (tr_artists c) as [|artist others]; simpl.
    + split; [discriminate | intros [_ H]; now destruct H].
    + rewrite Hin. simpl. split; [intros ->; split; [reflexivity|discriminate]|tauto].
  - intros track_name artist_name Hnil. unfold exact_match, artist_match.
    now rewrite Hnil.
Qed.
